(** * A shallow embedding of the video download API (main.py)

    The program is a thin HTTP layer over an external extraction library:
    a regular-expression URL validator, a client resolver with a
    bot-detection fallback, and three request handlers.

    Python strings are embedded as [string]: sequences of code points below
    256.  Calls into the library and into [os] are embedded as an explicit
    environment ([World]) that gives the outcome of every call, and every
    effect the program performs (library calls, console output, filesystem
    operations) is recorded in a trace. *)

From Stdlib Require Import Ascii String NArith ZArith Bool Lia.
From stdpp Require Import base option list gmap strings sorting.

Local Arguments String.append !_ _ / : simpl nomatch.

(** ** Python strings *)

Module PyStr.

(** [len(s)] *)
Definition len (s : string) : nat := String.length s.

(** [c.lower()] on one code point below 256: the ASCII capitals and the
    Latin-1 capitals (all of 0xC0..0xDE but the multiplication sign). *)
Definition lower_char (c : ascii) : ascii :=
  let n := N_of_ascii c in
  if ((65 <=? n) && (n <=? 90))%N
     || ((192 <=? n) && (n <=? 222) && negb (n =? 215))%N
  then ascii_of_N (n + 32) else c.

(** [s.lower()] *)
Fixpoint lower (s : string) : string :=
  match s with
  | EmptyString => EmptyString
  | String c s' => String (lower_char c) (lower s')
  end.

(** [s[len(p):]] when [s.startswith(p)], and [None] otherwise. *)
Fixpoint strip_prefix (p s : string) : option string :=
  match p, s with
  | EmptyString, _ => Some s
  | String a p', String b s' =>
      if Ascii.eqb a b then strip_prefix p' s' else None
  | String _ _, EmptyString => None
  end.

(** [sub in s] *)
Fixpoint contains (sub s : string) : bool :=
  match strip_prefix sub s with
  | Some _ => true
  | None =>
      match s with
      | EmptyString => false
      | String _ s' => contains sub s'
      end
  end.

(** [s.partition(sep)] for a non-empty [sep]: the text before the first
    occurrence of [sep] and the text after it, [None] when [sep] does not
    occur. *)
Fixpoint partition (sep s : string) : option (string * string) :=
  match strip_prefix sep s with
  | Some r => Some (EmptyString, r)
  | None =>
      match s with
      | EmptyString => None
      | String c s' =>
          match partition sep s' with
          | Some (a, b) => Some (String c a, b)
          | None => None
          end
      end
  end.

(** [s.split(sep)] for a non-empty [sep]: cut at the successive
    non-overlapping occurrences of [sep], scanning from the left.  The
    fuel bounds the number of cuts; [len s] is always enough. *)
Fixpoint split_aux (fuel : nat) (sep s : string) : list string :=
  match partition sep s with
  | None => [s]
  | Some (a, b) =>
      a :: match fuel with
           | O => []
           | S fuel' => split_aux fuel' sep b
           end
  end.

Definition split (sep s : string) : list string :=
  split_aux (len s) sep s.

(** The text before the first occurrence of [sep], the whole of [s] when
    there is none: [s.split(sep)[0]]. *)
Definition before (sep s : string) : string :=
  match partition sep s with
  | Some (a, _) => a
  | None => s
  end.

(** The text after the first occurrence of [sep]. *)
Definition after_first (sep s : string) : option string :=
  match partition sep s with
  | Some (_, b) => Some b
  | None => None
  end.

(** [all(p(c) for c in s)] *)
Fixpoint all_chars (p : ascii -> bool) (s : string) : bool :=
  match s with
  | EmptyString => true
  | String c s' => p c && all_chars p s'
  end.

(** Truth value of a string: [bool(s)]. *)
Definition truthy (s : string) : bool :=
  match s with EmptyString => false | _ => true end.

End PyStr.

(** ** Regular expressions (the fragment of [re] the validator uses) *)

Module Re.

Inductive regex : Type :=
| Eps                       (* the empty pattern *)
| Bol                       (* ^   start of the subject *)
| Eol                       (* $   end of the subject, or before a final newline *)
| Chr (c : ascii)           (* a literal character, also escaped: \. \? *)
| Cls (p : ascii -> bool)   (* a character class: [...], \w, \S *)
| Seq (r1 r2 : regex)       (* r1 r2 *)
| Opt (r : regex)           (* (r)? *)
| Star (r : regex).         (* r* *)

(** [r+] is [r r*]. *)
Definition Plus (r : regex) : regex := Seq r (Star r).

(** A literal string is the sequence of its characters. *)
Fixpoint Lit (s : string) : regex :=
  match s with
  | EmptyString => Eps
  | String c s' => Seq (Chr c) (Lit s')
  end.

(** Concatenation of a list of patterns. *)
Definition Cat (rs : list regex) : regex := foldr Seq Eps rs.

Definition newline : ascii := ascii_of_N 10.

(** [$] without [re.MULTILINE]: at the end of the subject and also just
    before a newline that is the last character of the subject. *)
Definition at_eol (s : string) : bool :=
  match s with
  | EmptyString => true
  | String c EmptyString => Ascii.eqb c newline
  | _ => false
  end.

(** A backtracking matcher in continuation-passing style.  [w] is the
    whole subject, [s] the part of it not yet consumed, and [k] decides
    whether the rest of the pattern matches what is left.  A repetition
    gives up an iteration that consumed nothing, as [re] does. *)
Fixpoint star_loop (m : string -> (string -> bool) -> bool)
    (k : string -> bool) (n : nat) (s : string) : bool :=
  match n with
  | O => k s
  | S n' =>
      m s (fun s1 =>
        Nat.ltb (String.length s1) (String.length s) && star_loop m k n' s1)
      || k s
  end.

Fixpoint run (w : string) (r : regex) (s : string) (k : string -> bool) : bool :=
  match r with
  | Eps => k s
  | Bol => Nat.eqb (String.length s) (String.length w) && k s
  | Eol => at_eol s && k s
  | Chr c =>
      match s with
      | String a s' => Ascii.eqb a c && k s'
      | EmptyString => false
      end
  | Cls p =>
      match s with
      | String a s' => p a && k s'
      | EmptyString => false
      end
  | Seq r1 r2 => run w r1 s (fun s1 => run w r2 s1 k)
  | Opt r1 => run w r1 s k || k s
  | Star r1 => star_loop (run w r1) k (String.length s) s
  end.

(** [re.match(pattern, s) is not None]: the pattern matches a prefix of
    the subject. *)
Definition matches (r : regex) (s : string) : bool :=
  run s r s (fun _ => true).

(** Declarative meaning: [Matches w r s s'] when [r] matches the subject
    [w] from the suffix [s] on and leaves the suffix [s']. *)
Inductive Matches (w : string) : regex -> string -> string -> Prop :=
| MEps s : Matches w Eps s s
| MBol s : String.length s = String.length w -> Matches w Bol s s
| MEol s : at_eol s = true -> Matches w Eol s s
| MChr c s : Matches w (Chr c) (String c s) s
| MCls p c s : p c = true -> Matches w (Cls p) (String c s) s
| MSeq r1 r2 s s1 s2 :
    Matches w r1 s s1 -> Matches w r2 s1 s2 -> Matches w (Seq r1 r2) s s2
| MOptSome r s s1 : Matches w r s s1 -> Matches w (Opt r) s s1
| MOptNone r s : Matches w (Opt r) s s
| MStarNil r s : Matches w (Star r) s s
| MStarCons r s s1 s2 :
    Matches w r s s1 -> Matches w (Star r) s1 s2 -> Matches w (Star r) s s2.

End Re.

(** ** The URL validator *)

(** [\w] on code points below 256: letters, digits and the underscore of
    ASCII, and the letters and numeric characters of Latin-1. *)
Definition is_word (c : ascii) : bool :=
  let n := N_of_ascii c in
  (((48 <=? n) && (n <=? 57)) || ((65 <=? n) && (n <=? 90))
   || ((97 <=? n) && (n <=? 122)) || (n =? 95)
   || (n =? 170) || (n =? 178) || (n =? 179) || (n =? 181) || (n =? 185)
   || (n =? 186) || ((188 <=? n) && (n <=? 190))
   || ((192 <=? n) && (n <=? 214)) || ((216 <=? n) && (n <=? 246))
   || (248 <=? n))%N.

(** [\s] on code points below 256. *)
Definition is_space (c : ascii) : bool :=
  let n := N_of_ascii c in
  (((9 <=? n) && (n <=? 13)) || ((28 <=? n) && (n <=? 32))
   || (n =? 133) || (n =? 160))%N.

(** The class [[\w-]]. *)
Definition word_or_hyphen (c : ascii) : bool :=
  is_word c || Ascii.eqb c "-"%char.

(** The class [\S]. *)
Definition non_space (c : ascii) : bool := negb (is_space c).

(** The pattern of [is_valid_youtube_url], group by group:
    [^], [(https?://)?], [(www\.)?], [youtube\.com/watch\?v=], [[\w-]+],
    an optional group of [&] followed by [\S*], and [$]. *)
Definition pattern : Re.regex :=
  Re.Cat
    [ Re.Bol;
      Re.Opt (Re.Cat [Re.Lit "http"; Re.Opt (Re.Chr "s"); Re.Lit "://"]);
      Re.Opt (Re.Lit "www.");
      Re.Lit "youtube.com/watch?v=";
      Re.Plus (Re.Cls word_or_hyphen);
      Re.Opt (Re.Cat [Re.Chr "&"; Re.Star (Re.Cls non_space)]);
      Re.Eol ].

(** [is_valid_youtube_url(url)] for a string [url]. *)
Definition is_valid_youtube_url (url : string) : bool :=
  Re.matches pattern url.

(** The shape of a watch-page URL: an optional scheme, an optional [www.],
    the host and path, a [v=] parameter of one or more word characters or
    hyphens, and optionally [&] with further content whose characters
    satisfy [tail_ok]. *)
Definition schemes : list string := [""; "http://"; "https://"].
Definition subdomains : list string := [""; "www."].

Definition video_token (tok : string) : Prop :=
  tok <> "" /\ PyStr.all_chars word_or_hyphen tok = true.

Definition query_tail (tail_ok : ascii -> bool) (tail : string) : Prop :=
  tail = "" \/ exists q, tail = String "&" q /\ PyStr.all_chars tail_ok q = true.

Definition watch_url (tail_ok : ascii -> bool) (url : string) : Prop :=
  exists sch www tok tail,
    sch ∈ schemes /\ www ∈ subdomains /\ video_token tok /\
    query_tail tail_ok tail /\
    url = sch +:+ www +:+ "youtube.com/watch?v=" +:+ tok +:+ tail.

(** The shape as the specification words it: the further query content
    after [&] is arbitrary. *)
Definition spec_watch_url (url : string) : Prop :=
  watch_url (fun _ => true) url.

Definition LF : string := String Re.newline "".

(** [s.endswith("\n")] *)
Fixpoint ends_with_newline (s : string) : bool :=
  match s with
  | EmptyString => false
  | String c EmptyString => Ascii.eqb c Re.newline
  | String _ s' => ends_with_newline s'
  end.

(** ** Python values *)

(** The values that travel through the handlers: the JSON values of a
    request body, the values of the metadata accessors and the response
    bodies.  JSON numbers are integers here. *)
#[warnings="-register-all"]
Inductive pyval : Type :=
| PNone
| PBool (b : bool)
| PInt (n : Z)
| PStr (s : string)
| PList (l : list pyval)
| PDict (items : list (string * pyval))
| PDatetime (timestamp : Z).

(** [bool(v)], as tested by [if v], [not v] and [a and b]. *)
Definition truthy (v : pyval) : bool :=
  match v with
  | PNone => false
  | PBool b => b
  | PInt n => negb (n =? 0)%Z
  | PStr s => PyStr.truthy s
  | PList l => match l with [] => false | _ => true end
  | PDict items => match items with [] => false | _ => true end
  | PDatetime _ => true
  end.

(** An exception object, an instance of [Exception] (what the handlers of
    the program, all of them [except Exception], catch): its class and
    [str(e)].  [KeyboardInterrupt], [SystemExit] and [GeneratorExit], which
    are no instances of [Exception], are outside the embedding. *)
Record exn : Type := Exn { exn_class : string; exn_str : string }.

(** The outcome of a call: a value or a raised exception. *)
Inductive result (A : Type) : Type :=
| Ok (a : A)
| Raise (e : exn).
Arguments Ok {A} a.
Arguments Raise {A} e.

Definition IndexError : exn := Exn "IndexError" "list index out of range".
Definition KeyError (key : string) : exn :=
  Exn "KeyError" ("'" +:+ key +:+ "'").
Definition TypeError : exn :=
  Exn "TypeError" "expected string or bytes-like object".

(** [l[i]] *)
Definition py_index {A : Type} (l : list A) (i : nat) : result A :=
  match l !! i with
  | Some x => Ok x
  | None => Raise IndexError
  end.

(** [data.get(key)] on the dict of a JSON object. *)
Definition dict_get (data : gmap string pyval) (key : string) : pyval :=
  default PNone (data !! key).

(** ** The extraction library *)

(** A stream of the library: its attributes and the outcome of its
    [download(output_path=...)]. *)
Module Stream.
Record t : Type := Build {
  resolution : option string;
  mime_type : string;
  subtype : string;
  is_progressive : bool;
  includes_audio_track : bool;
  download : string -> result string
}.
End Stream.

(** [yt.streams.filter(progressive=..., file_extension=..., resolution=...)]:
    the streams that meet every criterion given, in their order.  [res] is
    the library's other name for [resolution]. *)
Definition stream_filter (progressive : option bool)
    (file_extension resolution : option string)
    (l : list Stream.t) : list Stream.t :=
  List.filter (fun s =>
    match progressive with
    | Some true => Stream.is_progressive s
    | _ => true
    end
    && match file_extension with
       | Some ext => String.eqb (Stream.subtype s) ext
       | None => true
       end
    && match resolution with
       | Some r =>
           match Stream.resolution s with
           | Some r' => String.eqb r' r
           | None => false
           end
       | None => true
       end) l.

(** A session object of the library (class [YouTube]): the outcome of each
    of its accessors. *)
Module YouTube.
Record t : Type := Build {
  title : result pyval;
  author : result pyval;
  length : result pyval;
  views : result pyval;
  description : result pyval;
  publish_date : result pyval;
  streams : result (list Stream.t)
}.
End YouTube.

(** An [InnerTube] client object; [context] is its dict of dicts. *)
Record InnerTube : Type := {
  it_client : string;
  it_use_po_token : bool;
  context : gmap string (gmap string pyval)
}.

(** How a session is constructed. *)
Inductive client : Type :=
| ClientDefault                       (* YouTube(url) *)
| ClientNamed (name : string)         (* YouTube(url, 'WEB') *)
| ClientInnerTube (it : InnerTube).   (* YouTube(url, innertube_client=it) *)

(** The environment: the outcome of every constructor of the library and of
    [os.makedirs]. *)
Record World : Type := {
  lib_InnerTube : string -> bool -> result InnerTube;
  lib_YouTube : string -> client -> result YouTube.t;
  os_makedirs : string -> result unit
}.

(** ** Effects *)

Inductive event : Type :=
| EInnerTube (client_name : string) (use_po_token : bool)
| EYouTube (url : string) (c : client)
| EAttr (name : string)               (* yt.title, yt.author, ... *)
| EStreams                            (* yt.streams *)
| EPrint (line : string)
| EMakedirs (path : string) (exist_ok : bool)
| EDownload (s : Stream.t) (output_path : string).

(** A computation: the trace of its effects and its outcome. *)
Definition M (A : Type) : Type := list event * result A.

Definition ret {A : Type} (a : A) : M A := ([], Ok a).

Definition raise {A : Type} (e : exn) : M A := ([], Raise e).

Definition bind {A B : Type} (m : M A) (f : A -> M B) : M B :=
  match m with
  | (t, Ok a) => let '(t', r) := f a in (t ++ t', r)
  | (t, Raise e) => (t, Raise e)
  end.

(** [try: m  except Exception as e: h e] *)
Definition try_except {A : Type} (m : M A) (h : exn -> M A) : M A :=
  match m with
  | (t, Raise e) => let '(t', r) := h e in (t ++ t', r)
  | (t, Ok a) => (t, Ok a)
  end.

(** A call into the environment, recorded with its outcome. *)
Definition call {A : Type} (ev : event) (r : result A) : M A := ([ev], r).

Definition lift {A : Type} (r : result A) : M A := ([], r).

Definition print (line : string) : M unit := ([EPrint line], Ok tt).

Notation "'let*' x := m 'in' k" := (bind m (fun x => k))
  (at level 10, x name, m at level 100, k at level 200).

(** [for x in l: body x] *)
Fixpoint for_each {A : Type} (l : list A) (body : A -> M unit) : M unit :=
  match l with
  | [] => ret tt
  | x :: l' => let* _ := body x in for_each l' body
  end.

Definition trace {A : Type} (m : M A) : list event := fst m.
Definition outcome {A : Type} (m : M A) : result A := snd m.

(** ** The client resolver *)

(** [innertube.context[k1][k2] = v] *)
Definition set_context (it : InnerTube) (k1 k2 : string) (v : pyval)
    : M InnerTube :=
  match context it !! k1 with
  | Some d =>
      ret {| it_client := it_client it;
             it_use_po_token := it_use_po_token it;
             context := <[k1 := <[k2 := v]> d]> (context it) |}
  | None => raise (KeyError k1)
  end.

(** The test of the fallback: ['bot' in str(e).lower()]. *)
Definition is_bot_error (e : exn) : bool :=
  PyStr.contains "bot" (PyStr.lower (exn_str e)).

Definition get_yt_object (W : World) (url : string)
    (po_token visitor_data : pyval) : M YouTube.t :=
  if truthy po_token && truthy visitor_data then
    try_except
      (let* innertube := call (EInnerTube "WEB" true) (lib_InnerTube W "WEB" true) in
       let* innertube := set_context innertube "client" "visitorData" visitor_data in
       let* innertube := set_context innertube "serviceIntegrityDimensions"
                      "poToken" po_token in
       let* yt := call (EYouTube url (ClientInnerTube innertube))
               (lib_YouTube W url (ClientInnerTube innertube)) in
       let* _ := call (EAttr "title") (YouTube.title yt) in
       ret yt)
      (fun e =>
         let* _ := print ("Manual po_token failed: " +:+ exn_str e) in
         raise e)
  else
    try_except
      (let* yt := call (EYouTube url (ClientNamed "WEB"))
               (lib_YouTube W url (ClientNamed "WEB")) in
       let* _ := call (EAttr "title") (YouTube.title yt) in
       ret yt)
      (fun e =>
         if is_bot_error e then
           let* _ := print "Bot detection with 'WEB' client. Falling back to default client." in
           try_except
             (let* yt := call (EYouTube url ClientDefault)
                      (lib_YouTube W url ClientDefault) in
              ret yt)
             (fun fallback_e =>
                let* _ := print ("Fallback failed as well: " +:+ exn_str fallback_e) in
                raise fallback_e)
         else raise e).

(** ** Download *)

(** [f"{v}"] for an optional string and for a bool. *)
Definition str_opt (v : option string) : string :=
  match v with Some s => s | None => "None" end.
Definition str_bool (b : bool) : string := if b then "True" else "False".

(** [f"./downloads/{url.split('v=')[1].split('&')[0]}"] *)
Definition out_dir_of (url : string) : result string :=
  match py_index (PyStr.split "v=" url) 1 with
  | Ok x =>
      match py_index (PyStr.split "&" x) 0 with
      | Ok video_id => Ok ("./downloads/" +:+ video_id)
      | Raise e => Raise e
      end
  | Raise e => Raise e
  end.

Definition not_found_message : string :=
  "Video with the specified resolution not found.".

Definition download_video (W : World) (url resolution : string)
    (po_token visitor_data : pyval) : M (bool * option string) :=
  try_except
    (let* yt := get_yt_object W url po_token visitor_data in
     let* _ := print ("Available progressive streams for " +:+ url +:+ ":") in
     let* ss := call EStreams (YouTube.streams yt) in
     let* _ := for_each (stream_filter (Some true) (Some "mp4") None ss)
       (fun stream =>
          print ("  - " +:+ str_opt (Stream.resolution stream) +:+ " - "
                 +:+ Stream.mime_type stream)) in
     let* ss := call EStreams (YouTube.streams yt) in
     match head (stream_filter (Some true) (Some "mp4") (Some resolution) ss) with
     | Some stream =>
         let* out_dir := lift (out_dir_of url) in
         let* _ := call (EMakedirs out_dir true) (os_makedirs W out_dir) in
         let* _ := call (EDownload stream out_dir) (Stream.download stream out_dir) in
         ret (true, None)
     | None =>
         let* _ := print (LF +:+ "Trying non-progressive streams:") in
         let* ss := call EStreams (YouTube.streams yt) in
         let* _ := for_each (stream_filter None (Some "mp4") (Some resolution) ss)
           (fun stream =>
              print ("  - " +:+ str_opt (Stream.resolution stream) +:+ " - "
                     +:+ Stream.mime_type stream +:+ " - audio: "
                     +:+ str_bool (Stream.includes_audio_track stream))) in
         ret (false, Some not_found_message)
     end)
    (fun e => ret (false, Some (exn_str e))).

(** ** Video information *)

Definition get_video_info (W : World) (url : string)
    (po_token visitor_data : pyval)
    : M (option (list (string * pyval)) * option string) :=
  try_except
    (let* yt := get_yt_object W url po_token visitor_data in
     let* ss := call EStreams (YouTube.streams yt) in
     let stream := head ss in
     let* title := call (EAttr "title") (YouTube.title yt) in
     let* author := call (EAttr "author") (YouTube.author yt) in
     let* length := call (EAttr "length") (YouTube.length yt) in
     let* views := call (EAttr "views") (YouTube.views yt) in
     let* description := call (EAttr "description") (YouTube.description yt) in
     let* publish_date := call (EAttr "publish_date") (YouTube.publish_date yt) in
     ret (Some [("title", title); ("author", author); ("length", length);
                ("views", views); ("description", description);
                ("publish_date", publish_date)], None))
    (fun e => ret (None, Some (exn_str e))).

(** ** Request handlers *)

(** What a handler returns: [jsonify(body), status]. *)
Record response : Type := Response { body : pyval; status : Z }.

Definition error_body (msg : string) : pyval := PDict [("error", PStr msg)].

Definition missing_url_message : string :=
  "Missing 'url' parameter in the request body.".
Definition invalid_url_message : string := "Invalid YouTube URL.".

(** The checks that open every handler: [if not url] and
    [if not is_valid_youtube_url(url)].  [re.match] raises [TypeError] on a
    value that is not a string; the exception leaves the handler. *)
Definition with_valid_url (data : gmap string pyval)
    (k : string -> pyval -> pyval -> M response) : M response :=
  let url := dict_get data "url" in
  let po_token := dict_get data "po_token" in
  let visitor_data := dict_get data "visitor_data" in
  if negb (truthy url) then
    ret (Response (error_body missing_url_message) 400)
  else
    match url with
    | PStr u =>
        if negb (is_valid_youtube_url u) then
          ret (Response (error_body invalid_url_message) 400)
        else k u po_token visitor_data
    | _ => raise TypeError
    end.

(** [POST /download/<resolution>] *)
Definition download_by_resolution (W : World) (resolution : string)
    (data : gmap string pyval) : M response :=
  with_valid_url data (fun url po_token visitor_data =>
    let* r := download_video W url resolution po_token visitor_data in
    let '(success, error_message) := r in
    if success then
      ret (Response
             (PDict [("message",
                      PStr ("Video with resolution " +:+ resolution
                            +:+ " downloaded successfully."))]) 200)
    else
      ret (Response
             (PDict [("error",
                      match error_message with
                      | Some msg => PStr msg
                      | None => PNone
                      end)]) 500)).

(** [POST /video_info] *)
Definition video_info (W : World) (data : gmap string pyval) : M response :=
  with_valid_url data (fun url po_token visitor_data =>
    let* r := get_video_info W url po_token visitor_data in
    let '(video_info, error_message) := r in
    match video_info with
    | Some ((_ :: _) as items) => ret (Response (PDict items) 200)
    | _ =>
        ret (Response
               (PDict [("error",
                        match error_message with
                        | Some msg => PStr msg
                        | None => PNone
                        end)]) 500)
    end).

(** [[stream.resolution for stream in l if stream.resolution]] *)
Definition resolution_labels (l : list Stream.t) : list string :=
  omap (fun s =>
    match Stream.resolution s with
    | Some r => if PyStr.truthy r then Some r else None
    | None => None
    end) l.

(** [list(set(l))]: the distinct elements, in the order the set gives. *)
Definition list_set (l : list string) : list string :=
  elements (list_to_set l : gset string).

(** [sorted(l)] on strings: by code points. *)
Definition sorted (l : list string) : list string := merge_sort String.le l.

Definition str_list (l : list string) : pyval := PList (PStr <$> l).

(** [POST /available_resolutions] *)
Definition available_resolutions (W : World) (data : gmap string pyval)
    : M response :=
  with_valid_url data (fun url po_token visitor_data =>
    try_except
      (let* yt := get_yt_object W url po_token visitor_data in
       let* ss := call EStreams (YouTube.streams yt) in
       let progressive_resolutions :=
         list_set (resolution_labels
                     (stream_filter (Some true) (Some "mp4") None ss)) in
       let* ss := call EStreams (YouTube.streams yt) in
       let all_resolutions :=
         list_set (resolution_labels
                     (stream_filter None (Some "mp4") None ss)) in
       ret (Response
              (PDict [("progressive", str_list (sorted progressive_resolutions));
                      ("all", str_list (sorted all_resolutions))]) 200))
      (fun e => ret (Response (error_body (exn_str e)) 500))).

(** ** Notions the properties are stated with *)

(** The three handlers on one request body. *)
Definition served (W : World) (resolution : string)
    (data : gmap string pyval) : list (M response) :=
  [ download_by_resolution W resolution data;
    video_info W data;
    available_resolutions W data ].

(** The first attempt of the resolver without bypass credentials: the
    session is constructed with the [WEB] client, then probed. *)
Definition web_attempt (W : World) (url : string) : result YouTube.t :=
  match lib_YouTube W url (ClientNamed "WEB") with
  | Ok yt =>
      match YouTube.title yt with
      | Ok _ => Ok yt
      | Raise e => Raise e
      end
  | Raise e => Raise e
  end.

(** [it.context[k1][k2]], when both keys are there. *)
Definition context_get (it : InnerTube) (k1 k2 : string) : option pyval :=
  match context it !! k1 with
  | Some d => d !! k2
  | None => None
  end.

(** Both tokens sit in the context of the client object. *)
Definition injected (po_token visitor_data : pyval) (it : InnerTube) : Prop :=
  context_get it "client" "visitorData" = Some visitor_data /\
  context_get it "serviceIntegrityDimensions" "poToken" = Some po_token.

(** The client object of the bypass path, with both tokens set. *)
Definition bypass_client (W : World) (po_token visitor_data : pyval)
    : result InnerTube :=
  match lib_InnerTube W "WEB" true with
  | Ok it =>
      match context it !! "client" with
      | Some d =>
          let it1 := {| it_client := it_client it;
                        it_use_po_token := it_use_po_token it;
                        context := <["client" := <["visitorData" := visitor_data]> d]>
                                     (context it) |} in
          match context it1 !! "serviceIntegrityDimensions" with
          | Some d' =>
              Ok {| it_client := it_client it1;
                    it_use_po_token := it_use_po_token it1;
                    context := <["serviceIntegrityDimensions" :=
                                   <["poToken" := po_token]> d']> (context it1) |}
          | None => Raise (KeyError "serviceIntegrityDimensions")
          end
      | None => Raise (KeyError "client")
      end
  | Raise e => Raise e
  end.

(** The bypass session: constructed on that client object, then probed. *)
Definition bypass_attempt (W : World) (url : string)
    (po_token visitor_data : pyval) : result YouTube.t :=
  match bypass_client W po_token visitor_data with
  | Ok it =>
      match lib_YouTube W url (ClientInnerTube it) with
      | Ok yt =>
          match YouTube.title yt with
          | Ok _ => Ok yt
          | Raise e => Raise e
          end
      | Raise e => Raise e
      end
  | Raise e => Raise e
  end.

(** The claim on the fallback as it is worded: the probe of a [WEB]
    session raises an error whose message holds "bot". *)
Definition probe_raises_bot (W : World) (url : string) : Prop :=
  exists yt e,
    lib_YouTube W url (ClientNamed "WEB") = Ok yt /\
    YouTube.title yt = Raise e /\ is_bot_error e = true.

(** The video identifier as the specification words it: the text of the
    url between the first occurrence of [v=] and the next [&]. *)
Definition spec_video_id (url : string) : option string :=
  match PyStr.after_first "v=" url with
  | Some rest => Some (PyStr.before "&" rest)
  | None => None
  end.

(** What may follow the token of a url the validator accepts. *)
Definition token_end (y : string) : Prop :=
  y = "" \/ y = LF \/ exists q, y = String "&" q.

(** The resolution labels a listing has to show: those of the streams with
    file extension mp4, of the progressive ones only when
    [progressive_only] is set; a stream without a label, or with an empty
    one, shows none. *)
Definition label_of (progressive_only : bool) (ss : list Stream.t)
    (x : string) : Prop :=
  exists s,
    s ∈ ss /\
    (progressive_only = true -> Stream.is_progressive s = true) /\
    Stream.subtype s = "mp4" /\
    Stream.resolution s = Some x /\ x <> "".

(** [l] lists the strings of [P], each once, in the order of their code
    points. *)
Definition sorted_listing (P : string -> Prop) (l : list string) : Prop :=
  StronglySorted String.le l /\ NoDup l /\ forall x, x ∈ l <-> P x.

(** The body of a video information response. *)
Definition info_body (title author length views description publish_date : pyval)
    : pyval :=
  PDict [("title", title); ("author", author); ("length", length);
         ("views", views); ("description", description);
         ("publish_date", publish_date)].

(** The events that touch the filesystem. *)
Definition is_fs_event (ev : event) : bool :=
  match ev with
  | EMakedirs _ _ | EDownload _ _ => true
  | _ => false
  end.

Definition fs_events (t : list event) : list event :=
  List.filter is_fs_event t.

(** The sessions constructed along a trace, by client. *)
Definition constructions (t : list event) : list client :=
  omap (fun ev => match ev with EYouTube _ c => Some c | _ => None end) t.

(** ** Sample data *)

Definition sample_url : string := "https://www.youtube.com/watch?v=abc123".

Definition sample_stream (res : option string) (progressive : bool)
    : Stream.t :=
  Stream.Build res "video/mp4" "mp4" progressive progressive
    (fun output_path => Ok (output_path +:+ "/video.mp4")).

(** Streams at 720p, 720p and 480p (progressive) and at 1080p (adaptive),
    and one without a resolution. *)
Definition sample_streams : list Stream.t :=
  [ sample_stream (Some "720p") true; sample_stream (Some "720p") true;
    sample_stream (Some "480p") true; sample_stream (Some "1080p") false;
    sample_stream None false ].

Definition sample_session : YouTube.t :=
  YouTube.Build (Ok (PStr "T")) (Ok (PStr "A")) (Ok (PInt 120)) (Ok (PInt 5))
    (Ok (PStr "D")) (Ok (PDatetime 1700000000)) (Ok sample_streams).

(** A session whose metadata is there and whose stream listing raises. *)
Definition unavailable_session : YouTube.t :=
  YouTube.Build (Ok (PStr "T")) (Ok (PStr "A")) (Ok (PInt 120)) (Ok (PInt 5))
    (Ok (PStr "D")) (Ok (PDatetime 1700000000))
    (Raise (Exn "VideoUnavailable" "abc123 is unavailable")).

Definition sample_innertube (client_name : string) (use_po_token : bool)
    : InnerTube :=
  {| it_client := client_name;
     it_use_po_token := use_po_token;
     context := {[ "client" := ∅; "serviceIntegrityDimensions" := ∅ ]} |}.

(** A library that answers every call. *)
Definition sample_world : World :=
  {| lib_InnerTube := fun c p => Ok (sample_innertube c p);
     lib_YouTube := fun _ _ => Ok sample_session;
     os_makedirs := fun _ => Ok tt |}.

(** A library that refuses to construct a session with a named client. *)
Definition bot_world : World :=
  {| lib_InnerTube := fun c p => Ok (sample_innertube c p);
     lib_YouTube := fun _ c =>
       match c with
       | ClientNamed _ => Raise (Exn "BotDetection" "Sign in to confirm you are not a Bot")
       | _ => Ok sample_session
       end;
     os_makedirs := fun _ => Ok tt |}.

(** A library whose sessions raise when their streams are listed. *)
Definition unavailable_world : World :=
  {| lib_InnerTube := fun c p => Ok (sample_innertube c p);
     lib_YouTube := fun _ _ => Ok unavailable_session;
     os_makedirs := fun _ => Ok tt |}.

(** A request for the sample url. *)
Definition sample_request : gmap string pyval := {[ "url" := PStr sample_url ]}.

(** A request with a malformed url, and one with an empty url. *)
Definition bad_request : gmap string pyval := {[ "url" := PStr "not-a-url" ]}.
Definition empty_request : gmap string pyval := {[ "url" := PStr "" ]}.

(** A library whose client object has an empty context. *)
Definition bare_world : World :=
  {| lib_InnerTube := fun c p =>
       Ok {| it_client := c; it_use_po_token := p; context := ∅ |};
     lib_YouTube := fun _ _ => Ok sample_session;
     os_makedirs := fun _ => Ok tt |}.

(** A library whose filesystem refuses to create directories. *)
Definition readonly_world : World :=
  {| lib_InnerTube := fun c p => Ok (sample_innertube c p);
     lib_YouTube := fun _ _ => Ok sample_session;
     os_makedirs := fun _ => Raise (Exn "PermissionError" "Permission denied") |}.

(** A request with the sample url and further keys the handlers do not
    read. *)
Definition noisy_request : gmap string pyval :=
  {[ "url" := PStr sample_url; "quality" := PStr "best"; "retries" := PInt 3 ]}.

(** A request whose url is a number. *)
Definition numeric_request : gmap string pyval := {[ "url" := PInt 5 ]}.

(** ** Facts on strings *)

Module PyStrFacts.
Import PyStr.

Lemma str_length_app (a b : string) :
  String.length (a +:+ b) = String.length a + String.length b.
Proof. induction a as [|c a IH]; simpl; [done | by rewrite IH]. Qed.

Lemma str_app_assoc (a b c : string) : (a +:+ b) +:+ c = a +:+ (b +:+ c).
Proof. induction a as [|x a IH]; simpl; [done | by rewrite IH]. Qed.

Lemma str_app_nil_r (a : string) : a +:+ "" = a.
Proof. induction a as [|x a IH]; simpl; [done | by rewrite IH]. Qed.

Lemma str_app_same_length (p s : string) :
  String.length (p +:+ s) = String.length s -> p = "".
Proof. rewrite str_length_app. destruct p; simpl; [done | lia]. Qed.

Lemma strip_prefix_cons a p b s :
  strip_prefix (String a p) (String b s) =
    if Ascii.eqb a b then strip_prefix p s else None.
Proof. reflexivity. Qed.

Lemma strip_prefix_app p s : strip_prefix p (p +:+ s) = Some s.
Proof.
  induction p as [|c p IH]; simpl; [by destruct s|].
  by rewrite Ascii.eqb_refl.
Qed.

Lemma strip_prefix_Some p s r : strip_prefix p s = Some r -> s = p +:+ r.
Proof.
  revert s. induction p as [|c p IH]; intros s; simpl.
  - destruct s; by intros [= ->].
  - destruct s as [|d s]; [done|].
    destruct (Ascii.eqb_spec c d) as [->|]; [|done].
    by intros ->%IH.
Qed.

Lemma partition_Some sep s a b :
  partition sep s = Some (a, b) -> s = a +:+ sep +:+ b.
Proof.
  revert a. induction s as [|c s IH]; intros a; simpl.
  - destruct (strip_prefix sep "") as [r|] eqn:Hp; [|done].
    intros [= <- <-]. by apply strip_prefix_Some in Hp.
  - destruct (strip_prefix sep (String c s)) as [r|] eqn:Hp.
    + intros [= <- <-]. by apply strip_prefix_Some in Hp.
    + destruct (partition sep s) as [[a' b']|]; [|done].
      intros [= <- <-]. simpl. f_equal. by apply IH.
Qed.

Lemma partition_shorter sep s a b :
  sep <> "" -> partition sep s = Some (a, b) ->
  String.length b < String.length s.
Proof.
  intros Hne ->%partition_Some. rewrite !str_length_app.
  destruct sep; [done | simpl; lia].
Qed.

Lemma split_aux_fuel sep : sep <> "" -> forall n m s,
  String.length s <= n -> String.length s <= m ->
  split_aux n sep s = split_aux m sep s.
Proof.
  intros Hne. induction n as [|n IH]; intros m s Hn Hm.
  - destruct s; [|simpl in Hn; lia].
    destruct sep; [done|]. by destruct m.
  - simpl. destruct (partition sep s) as [[a b]|] eqn:Hp.
    + pose proof (partition_shorter _ _ _ _ Hne Hp).
      destruct m as [|m]; [lia|]. destruct n; simpl; rewrite Hp;
        f_equal; apply IH; lia.
    + destruct m; simpl; by rewrite Hp.
Qed.

(** The fuel of [split] never runs out. *)
Lemma split_unfold sep s :
  sep <> "" ->
  split sep s =
    match partition sep s with
    | None => [s]
    | Some (a, b) => a :: split sep b
    end.
Proof.
  intros Hne. unfold split, len.
  destruct (partition sep s) as [[a b]|] eqn:Hp.
  - pose proof (partition_shorter _ _ _ _ Hne Hp).
    destruct (String.length s) as [|n] eqn:Hl; [lia|].
    simpl. rewrite Hp. f_equal. apply split_aux_fuel; [done|lia..].
  - destruct (String.length s); simpl; by rewrite Hp.
Qed.

Lemma split_head sep s : sep <> "" -> split sep s !! 0 = Some (before sep s).
Proof.
  intros Hne. rewrite split_unfold by done. unfold before.
  by destruct (partition sep s) as [[a b]|].
Qed.

Lemma split_second sep s :
  sep <> "" ->
  split sep s !! 1 =
    match after_first sep s with
    | Some b => Some (before sep b)
    | None => None
    end.
Proof.
  intros Hne. rewrite split_unfold by done. unfold after_first.
  destruct (partition sep s) as [[a b]|]; [|done].
  simpl. by apply split_head.
Qed.

Lemma before_cons sep c s :
  strip_prefix sep (String c s) = None ->
  before sep (String c s) = String c (before sep s).
Proof.
  unfold before. simpl partition. intros ->.
  by destruct (partition sep s) as [[a b]|].
Qed.

End PyStrFacts.

(** ** Correctness of the matcher *)

Module ReFacts.
Import Re PyStrFacts.

(** A match consumes a prefix of what is left of the subject. *)
Lemma Matches_suffix w r s s' :
  Matches w r s s' -> exists p, s = p +:+ s'.
Proof.
  induction 1 as [s|s _|s _|c s|p c s _|r1 r2 s s1 s2 _ [p1 ->] _ [p2 ->]
                 |r s s1 _ IH|r s|r s|r s s1 s2 _ [p1 ->] _ [p2 ->]].
  - by exists "".
  - by exists "".
  - by exists "".
  - by exists (String c "").
  - by exists (String c "").
  - exists (p1 +:+ p2). by rewrite str_app_assoc.
  - done.
  - by exists "".
  - by exists "".
  - exists (p1 +:+ p2). by rewrite str_app_assoc.
Qed.

Lemma Matches_length w r s s' :
  Matches w r s s' -> String.length s' <= String.length s.
Proof. intros [p ->]%Matches_suffix. rewrite str_length_app. lia. Qed.

Lemma Matches_same_length w r s s' :
  Matches w r s s' -> String.length s' = String.length s -> s' = s.
Proof.
  intros [p ->]%Matches_suffix Hl. symmetry in Hl.
  by apply str_app_same_length in Hl as ->.
Qed.

Section star.
Variables (w : string) (r : regex).
Hypothesis run_r : forall s k,
  run w r s k = true <-> exists s', Matches w r s s' /\ k s' = true.

Lemma star_loop_sound k n s :
  star_loop (run w r) k n s = true ->
  exists s', Matches w (Star r) s s' /\ k s' = true.
Proof.
  revert s. induction n as [|n IH]; intros s; simpl.
  - intros Hk. exists s. split; [constructor | done].
  - intros [H|Hk]%orb_true_iff.
    + apply run_r in H as (s1 & Hm & [_ Hl]%andb_true_iff).
      destruct (IH _ Hl) as (s2 & Hs & Hk).
      exists s2. split; [by econstructor | done].
    + exists s. split; [constructor | done].
Qed.

Lemma star_loop_complete k s s' :
  Matches w (Star r) s s' -> k s' = true ->
  forall n, String.length s <= n -> star_loop (run w r) k n s = true.
Proof.
  intros Hm Hk. remember (Star r) as rs eqn:Hrs.
  induction Hm as [| | | | | | | | r0 s |r0 s s1 s2 Hm1 _ Hm2 IH2];
    try discriminate; injection Hrs as ->; intros n Hn.
  - destruct n; simpl; [done | by rewrite Hk, orb_true_r].
  - specialize (IH2 eq_refl Hk).
    destruct (decide (String.length s1 = String.length s)) as [Heq|Hne].
    + apply (Matches_same_length _ _ _ _ Hm1) in Heq as ->. by apply IH2.
    + pose proof (Matches_length _ _ _ _ Hm1) as Hle.
      destruct n as [|n]; [lia|]. simpl.
      apply orb_true_iff. left. apply run_r. exists s1. split; [done|].
      apply andb_true_iff. split; [apply Nat.ltb_lt; lia | apply IH2; lia].
Qed.
End star.

(** The matcher decides the declarative meaning. *)
Theorem run_correct w r : forall s k,
  run w r s k = true <-> exists s', Matches w r s s' /\ k s' = true.
Proof.
  induction r as [| | |c|p|r1 IH1 r2 IH2|r IH|r IH]; intros s k; simpl.
  - split; [intros Hk; exists s; split; [constructor | done]|].
    intros (s' & Hm & Hk). by inversion Hm; subst.
  - rewrite andb_true_iff, Nat.eqb_eq. split.
    + intros [Hl Hk]. exists s. split; [by constructor | done].
    + intros (s' & Hm & Hk). by inversion Hm; subst.
  - rewrite andb_true_iff. split.
    + intros [Hl Hk]. exists s. split; [by constructor | done].
    + intros (s' & Hm & Hk). by inversion Hm; subst.
  - destruct s as [|a s]; [split; [done|]|].
    + intros (s' & Hm & _). inversion Hm.
    + rewrite andb_true_iff, Ascii.eqb_eq. split.
      * intros [-> Hk]. exists s. split; [constructor | done].
      * intros (s' & Hm & Hk). by inversion Hm; subst.
  - destruct s as [|a s]; [split; [done|]|].
    + intros (s' & Hm & _). inversion Hm.
    + rewrite andb_true_iff. split.
      * intros [Hp Hk]. exists s. split; [by constructor | done].
      * intros (s' & Hm & Hk). by inversion Hm; subst.
  - rewrite IH1. split.
    + intros (s1 & Hm1 & (s2 & Hm2 & Hk)%IH2).
      exists s2. split; [by econstructor | done].
    + intros (s2 & Hm & Hk). inversion Hm; subst.
      eexists. split; [done|]. apply IH2. eauto.
  - rewrite orb_true_iff, IH. split.
    + intros [(s' & Hm & Hk)|Hk].
      * exists s'. split; [by apply MOptSome | done].
      * exists s. split; [apply MOptNone | done].
    + intros (s' & Hm & Hk). inversion Hm; subst; eauto.
  - split.
    + by apply star_loop_sound.
    + intros (s' & Hm & Hk). by eapply star_loop_complete.
Qed.

Corollary matches_correct r s :
  matches r s = true <-> exists s', Matches s r s s'.
Proof.
  unfold matches. rewrite run_correct. split.
  - intros (s' & Hm & _). by exists s'.
  - intros [s' Hm]. by exists s'.
Qed.

(** Inversion principles, one per construct. *)
Lemma Matches_Eps w s s' : Matches w Eps s s' <-> s' = s.
Proof. split; [by inversion 1 | intros ->; constructor]. Qed.

Lemma Matches_Bol w s s' :
  Matches w Bol s s' <-> s' = s /\ String.length s = String.length w.
Proof. split; [by inversion 1 | intros [-> ?]; by constructor]. Qed.

Lemma Matches_Eol w s s' :
  Matches w Eol s s' <-> s' = s /\ at_eol s = true.
Proof. split; [by inversion 1 | intros [-> ?]; by constructor]. Qed.

Lemma Matches_Chr w c s s' : Matches w (Chr c) s s' <-> s = String c s'.
Proof. split; [by inversion 1 | intros ->; constructor]. Qed.

Lemma Matches_Cls w p s s' :
  Matches w (Cls p) s s' <-> exists c, p c = true /\ s = String c s'.
Proof.
  split; [inversion 1; subst; eauto | intros (c & ? & ->); by constructor].
Qed.

Lemma Matches_Seq w r1 r2 s s' :
  Matches w (Seq r1 r2) s s' <->
  exists s1, Matches w r1 s s1 /\ Matches w r2 s1 s'.
Proof.
  split; [inversion 1; subst; eauto | intros (s1 & ? & ?); by econstructor].
Qed.

Lemma Matches_Opt w r s s' :
  Matches w (Opt r) s s' <-> Matches w r s s' \/ s' = s.
Proof.
  split; [inversion 1; subst; eauto|].
  intros [?| ->]; [by apply MOptSome | apply MOptNone].
Qed.

Lemma Matches_Lit w l s s' : Matches w (Lit l) s s' <-> s = l +:+ s'.
Proof.
  revert s. induction l as [|c l IH]; intros s; simpl.
  - rewrite Matches_Eps. split; by intros ->.
  - rewrite Matches_Seq. setoid_rewrite Matches_Chr. setoid_rewrite IH.
    split; [intros (s1 & -> & ->); done | intros ->; eauto].
Qed.

Lemma Matches_Cat_nil w s s' : Matches w (Cat []) s s' <-> s' = s.
Proof. apply Matches_Eps. Qed.

Lemma Matches_Cat_cons w r rs s s' :
  Matches w (Cat (r :: rs)) s s' <->
  exists s1, Matches w r s s1 /\ Matches w (Cat rs) s1 s'.
Proof. apply Matches_Seq. Qed.

Lemma Matches_StarCls w p s s' :
  Matches w (Star (Cls p)) s s' <->
  exists t, PyStr.all_chars p t = true /\ s = t +:+ s'.
Proof.
  split.
  - intros Hm. remember (Star (Cls p)) as rs eqn:Hrs.
    induction Hm as [| | | | | | | | r0 s |r0 s s1 s2 Hm1 _ Hm2 IH2];
      try discriminate; injection Hrs as ->.
    + by exists "".
    + destruct (IH2 eq_refl) as (t & Ht & ->).
      apply Matches_Cls in Hm1 as (c & Hc & ->).
      exists (String c t). simpl. by rewrite Hc, Ht.
  - intros (t & Ht & ->). induction t as [|c t IH]; simpl in *.
    + constructor.
    + apply andb_true_iff in Ht as [Hc Ht].
      eapply MStarCons; [by apply MCls | by apply IH].
Qed.

Lemma Matches_PlusCls w p s s' :
  Matches w (Plus (Cls p)) s s' <->
  exists t, t <> "" /\ PyStr.all_chars p t = true /\ s = t +:+ s'.
Proof.
  unfold Plus. rewrite Matches_Seq. setoid_rewrite Matches_Cls.
  setoid_rewrite Matches_StarCls. split.
  - intros (s1 & (c & Hc & ->) & t & Ht & ->).
    exists (String c t). simpl. by rewrite Hc, Ht.
  - intros ([|c t] & Hne & Ht & ->); [done|]. simpl in Ht.
    apply andb_true_iff in Ht as [Hc Ht]. exists (t +:+ s').
    split; [by exists c | by exists t].
Qed.

Lemma at_eol_iff s : at_eol s = true <-> s = "" \/ s = LF.
Proof.
  destruct s as [|c [|d s]]; simpl.
  - split; [by left | done].
  - rewrite Ascii.eqb_eq. unfold LF. split; [by intros ->; right|].
    intros [?|?]; congruence.
  - split; [done | intros [?|?]; discriminate].
Qed.

End ReFacts.

(** ** What the validator accepts *)

Section validator.
Import Re ReFacts PyStrFacts.
#[local] Opaque Lit.

Lemma Matches_scheme w s s' :
  Matches w (Opt (Cat [Lit "http"; Opt (Chr "s"); Lit "://"])) s s' <->
  exists sch, sch ∈ schemes /\ s = sch +:+ s'.
Proof.
  rewrite Matches_Opt. repeat setoid_rewrite Matches_Cat_cons.
  setoid_rewrite Matches_Cat_nil. setoid_rewrite Matches_Opt.
  setoid_rewrite Matches_Lit. setoid_rewrite Matches_Chr.
  unfold schemes. split.
  - intros [(s1 & -> & s2 & [->| ->] & s3 & -> & ->)| ->].
    + exists "https://". split; [set_solver | done].
    + exists "http://". split; [set_solver | done].
    + exists "". split; [set_solver | done].
  - intros (sch & Hin & ->).
    apply elem_of_cons in Hin as [->|Hin]; [by right|].
    apply elem_of_cons in Hin as [->|Hin].
    { left. exists ("://" +:+ s'). split; [done|]. exists ("://" +:+ s').
      split; [by right|]. by exists s'. }
    apply list_elem_of_singleton in Hin as ->.
    left. exists ("s://" +:+ s'). split; [done|]. exists ("://" +:+ s').
    split; [by left|]. by exists s'.
Qed.

Lemma Matches_subdomain w s s' :
  Matches w (Opt (Lit "www.")) s s' <->
  exists www, www ∈ subdomains /\ s = www +:+ s'.
Proof.
  rewrite Matches_Opt, Matches_Lit. unfold subdomains. split.
  - intros [->| ->]; [exists "www." | exists ""]; (split; [set_solver | done]).
  - intros (www & Hin & ->).
    apply elem_of_cons in Hin as [->|Hin]; [by right|].
    apply list_elem_of_singleton in Hin as ->. by left.
Qed.

Lemma Matches_tail w s s' :
  Matches w (Opt (Cat [Chr "&"; Star (Cls non_space)])) s s' <->
  exists tail, query_tail non_space tail /\ s = tail +:+ s'.
Proof.
  rewrite Matches_Opt. repeat setoid_rewrite Matches_Cat_cons.
  setoid_rewrite Matches_Cat_nil. setoid_rewrite Matches_Chr.
  setoid_rewrite Matches_StarCls.
  unfold query_tail. split.
  - intros [(s1 & -> & s2 & (t & Ht & ->) & ->)| ->].
    + exists (String "&" t). split; [right; eauto | done].
    + exists "". split; [by left | done].
  - intros (tail & [->|(q & -> & Hq)] & ->); [by right|].
    left. exists (q +:+ s'). split; [done|]. exists s'. eauto.
Qed.

(** The strings the validator accepts: the watch-page URLs whose further
    query content holds no white space, each also with one newline after
    it. *)
Theorem is_valid_youtube_url_iff url :
  is_valid_youtube_url url = true <->
  watch_url non_space url \/
  exists u, url = u +:+ LF /\ watch_url non_space u.
Proof.
  unfold is_valid_youtube_url. rewrite matches_correct.
  unfold pattern. repeat setoid_rewrite Matches_Cat_cons.
  setoid_rewrite Matches_Cat_nil.
  setoid_rewrite Matches_Bol. setoid_rewrite Matches_scheme.
  setoid_rewrite Matches_subdomain. setoid_rewrite Matches_Lit.
  setoid_rewrite Matches_PlusCls. setoid_rewrite Matches_tail.
  setoid_rewrite Matches_Eol. setoid_rewrite at_eol_iff. unfold watch_url, video_token. split.
  - intros (s' & s1 & [-> _] & s2 & (sch & Hsch & Hu) & s3 &
            (www & Hwww & ->) & s4 & -> & s5 & (tok & Hne & Htok & ->) &
            s6 & (tail & Htail & ->) & s7 & [-> Hfin] & ->).
    destruct Hfin as [->| ->].
    + left. exists sch, www, tok, tail. rewrite (str_app_nil_r tail) in Hu. eauto 10.
    + right. exists (sch +:+ www +:+ "youtube.com/watch?v=" +:+ tok +:+ tail).
      split; [by rewrite Hu, !str_app_assoc | eauto 10].
  - intros [(sch & www & tok & tail & Hsch & Hwww & [Hne Htok] & Htail & ->)
           |(u & -> & sch & www & tok & tail & Hsch & Hwww & [Hne Htok] & Htail
               & ->)].
    + exists "". eexists. split; [done|]. eexists. split; [eauto|].
      eexists. split; [eauto|]. eexists. split; [done|].
      eexists. split; [eauto|]. exists "". split.
      * exists tail. by rewrite str_app_nil_r.
      * exists "". eauto.
    + exists LF. eexists. split; [done|]. eexists. split.
      { exists sch. split; [done|]. by rewrite !str_app_assoc. }
      eexists. split; [eauto|]. eexists. split; [done|].
      eexists. split; [eauto|]. exists LF. split; [eauto|].
      exists LF. eauto.
Qed.

End validator.

(** ** The client resolver *)

Section resolver.
Variable W : World.

(** C9: a lone credential, or an empty one, is ignored: the resolver does
    what it does with no credential at all, effects included. *)
Theorem lone_credential_ignored (url : string) (po_token visitor_data : pyval) :
  truthy po_token && truthy visitor_data = false ->
  get_yt_object W url po_token visitor_data = get_yt_object W url PNone PNone.
Proof. intros H. unfold get_yt_object. by rewrite H. Qed.

Lemma get_yt_object_plain (url : string) (po_token visitor_data : pyval) :
  truthy po_token && truthy visitor_data = false ->
  let r := get_yt_object W url po_token visitor_data in
  outcome r =
    match web_attempt W url with
    | Ok yt => Ok yt
    | Raise e =>
        if is_bot_error e then lib_YouTube W url ClientDefault else Raise e
    end /\
  constructions (trace r) =
    match web_attempt W url with
    | Ok _ => [ClientNamed "WEB"]
    | Raise e =>
        if is_bot_error e then [ClientNamed "WEB"; ClientDefault]
        else [ClientNamed "WEB"]
    end.
Proof.
  intros H. unfold get_yt_object, web_attempt. rewrite H.
  destruct (lib_YouTube W url (ClientNamed "WEB")) as [yt|e]; simpl.
  - destruct (YouTube.title yt) as [v|e]; simpl; [done|].
    destruct (is_bot_error e); simpl; [|done].
    by destruct (lib_YouTube W url ClientDefault).
  - destruct (is_bot_error e); simpl; [|done].
    by destruct (lib_YouTube W url ClientDefault).
Qed.

(** C1, amended: without bypass credentials the fallback to the default
    client is attempted exactly when constructing or probing the [WEB]
    session raises an error whose message holds "bot" in any case; it is
    then attempted once and its outcome, session or failure, is the
    outcome of the resolver; any other error of the first attempt is raised
    as it is, with no fallback. *)
Theorem fallback_iff_bot_error (url : string) (po_token visitor_data : pyval) :
  truthy po_token && truthy visitor_data = false ->
  let r := get_yt_object W url po_token visitor_data in
  (ClientDefault ∈ constructions (trace r) <->
     exists e, web_attempt W url = Raise e /\ is_bot_error e = true) /\
  (forall e, web_attempt W url = Raise e -> is_bot_error e = true ->
     constructions (trace r) = [ClientNamed "WEB"; ClientDefault] /\
     outcome r = lib_YouTube W url ClientDefault) /\
  (forall e, web_attempt W url = Raise e -> is_bot_error e = false ->
     constructions (trace r) = [ClientNamed "WEB"] /\ outcome r = Raise e) /\
  (forall yt, web_attempt W url = Ok yt ->
     constructions (trace r) = [ClientNamed "WEB"] /\ outcome r = Ok yt).
Proof.
  intros H r. destruct (get_yt_object_plain url _ _ H) as [Ho Hc].
  fold r in Ho, Hc. rewrite Ho, Hc. clear Ho Hc.
  destruct (web_attempt W url) as [yt|e].
  - split; [|split; [done|split; [done|]]].
    + split; [intros Hin | by intros (e & ? & _)].
      apply list_elem_of_singleton in Hin. discriminate.
    + by intros yt' [= <-].
  - destruct (is_bot_error e) eqn:Hb.
    + split; [|split; [|split; [|done]]].
      * split; [by exists e | intros _].
        apply elem_of_cons. right. by apply list_elem_of_singleton.
      * done.
      * intros e' [= <-]. congruence.
    + split; [|split; [|split; [|done]]].
      * split; [intros Hin | intros (e' & [= <-] & ?); congruence].
        apply list_elem_of_singleton in Hin. discriminate.
      * intros e' [= <-]. congruence.
      * by intros e' [= <-].
Qed.

Lemma bypass_client_injected (po_token visitor_data : pyval) (it : InnerTube) :
  bypass_client W po_token visitor_data = Ok it ->
  injected po_token visitor_data it.
Proof.
  unfold bypass_client, injected, context_get.
  destruct (lib_InnerTube W "WEB" true) as [it0|e]; [|done].
  destruct (context it0 !! "client") as [d|] eqn:Hd; [|done]. simpl.
  rewrite lookup_insert_ne by done.
  destruct (context it0 !! "serviceIntegrityDimensions") as [d'|]; [|done].
  intros [= <-]. simpl.
  rewrite lookup_insert_ne by done.
  rewrite !lookup_insert_eq. by simpl.
Qed.

Lemma get_yt_object_bypass (url : string) (po_token visitor_data : pyval) :
  truthy po_token = true -> truthy visitor_data = true ->
  let r := get_yt_object W url po_token visitor_data in
  outcome r = bypass_attempt W url po_token visitor_data /\
  exists t,
    trace r =
      EInnerTube "WEB" true ::
      match bypass_client W po_token visitor_data with
      | Ok it =>
          EYouTube url (ClientInnerTube it) ::
          match lib_YouTube W url (ClientInnerTube it) with
          | Ok _ => EAttr "title" :: t
          | Raise _ => t
          end
      | Raise _ => t
      end /\
    match outcome r with
    | Ok _ => t = []
    | Raise e => t = [EPrint ("Manual po_token failed: " +:+ exn_str e)]
    end.
Proof.
  intros Hp Hv. unfold get_yt_object, bypass_attempt, bypass_client.
  rewrite Hp, Hv. simpl.
  destruct (lib_InnerTube W "WEB" true) as [it0|e]; simpl;
    [|split; [|eexists; split]; reflexivity].
  unfold set_context.
  destruct (context it0 !! "client") as [d|]; simpl;
    [|split; [|eexists; split]; reflexivity].
  destruct (_ !! "serviceIntegrityDimensions") as [d'|]; simpl;
    [|split; [|eexists; split]; reflexivity].
  destruct (lib_YouTube W url _) as [yt|e]; simpl;
    [|split; [|eexists; split]; reflexivity].
  destruct (YouTube.title yt) as [v|e]; simpl;
    (split; [|eexists; split]; reflexivity).
Qed.

(** C2: with both credentials supplied the resolver builds the [WEB]
    client object, sets both tokens in its context, constructs the one
    session on it and probes it; whatever fails, that error is the outcome,
    and no session is constructed with a named or the default client,
    whatever the message of the error. *)
Theorem bypass_never_falls_back (url : string) (po_token visitor_data : pyval) :
  truthy po_token = true -> truthy visitor_data = true ->
  let r := get_yt_object W url po_token visitor_data in
  outcome r = bypass_attempt W url po_token visitor_data /\
  (forall c, c ∈ constructions (trace r) ->
     exists it, c = ClientInnerTube it /\ injected po_token visitor_data it) /\
  (ClientDefault ∉ constructions (trace r)) /\
  (forall yt, outcome r = Ok yt ->
     exists it, injected po_token visitor_data it /\
       trace r = [EInnerTube "WEB" true; EYouTube url (ClientInnerTube it);
                  EAttr "title"]).
Proof.
  intros Hp Hv r.
  destruct (get_yt_object_bypass url _ _ Hp Hv) as (Ho & t & Ht & Hr).
  fold r in Ho, Ht, Hr.
  assert (Hc : forall c, c ∈ constructions (trace r) ->
     exists it, c = ClientInnerTube it /\ injected po_token visitor_data it).
  { intros c. rewrite Ht.
    assert (Hnil : constructions t = [])
      by (destruct (outcome r); by subst t).
    destruct (bypass_client W po_token visitor_data) as [it|e] eqn:Hb;
      simpl.
    - replace (constructions _) with ([] : list client).
      + intros ->%list_elem_of_singleton. exists it.
        split; [done | by apply bypass_client_injected].
      + by destruct (lib_YouTube W url (ClientInnerTube it)).
    - rewrite Hnil. by intros ?%not_elem_of_nil. }
  split; [done|]. split; [done|]. split.
  - intros (it & ? & _)%Hc. discriminate.
  - intros yt Hyt. rewrite Hyt in Hr. subst t. rewrite Ht.
    rewrite Ho in Hyt. unfold bypass_attempt in Hyt.
    destruct (bypass_client W po_token visitor_data) as [it|e] eqn:Hb;
      [|done].
    exists it. split; [by apply bypass_client_injected|].
    by destruct (lib_YouTube W url (ClientInnerTube it)).
Qed.

End resolver.

(** C9 at a sample: a lone po_token. *)
Lemma lone_credential_ignored_witness :
  get_yt_object sample_world sample_url (PStr "token") PNone =
  get_yt_object sample_world sample_url PNone PNone.
Proof. apply lone_credential_ignored. reflexivity. Defined.

(** C1 as worded fails: a library that raises its bot error while the
    [WEB] session is constructed makes the resolver fall back, and no probe
    has raised anything. *)
Lemma fallback_without_probe_error :
  ~ (ClientDefault ∈ constructions
                       (trace (get_yt_object bot_world sample_url PNone PNone))
     <-> probe_raises_bot bot_world sample_url).
Proof.
  intros [Hf _].
  assert (Hin : ClientDefault ∈ constructions
            (trace (get_yt_object bot_world sample_url PNone PNone))).
  { vm_compute. apply elem_of_cons. right. apply list_elem_of_singleton.
    reflexivity. }
  destruct (Hf Hin) as (yt & e & Hyt & _). discriminate.
Qed.

(** C1, amended, at that library. *)
Lemma fallback_iff_bot_error_witness :
  constructions (trace (get_yt_object bot_world sample_url PNone PNone)) =
    [ClientNamed "WEB"; ClientDefault] /\
  outcome (get_yt_object bot_world sample_url PNone PNone) = Ok sample_session.
Proof.
  destruct (fallback_iff_bot_error bot_world sample_url PNone PNone eq_refl)
    as (_ & H & _).
  exact (H _ eq_refl eq_refl).
Defined.

(** C2 at a sample. *)
Lemma bypass_never_falls_back_witness :
  ClientDefault ∉ constructions
    (trace (get_yt_object sample_world sample_url (PStr "token") (PStr "visitor"))).
Proof.
  destruct (bypass_never_falls_back sample_world sample_url
              (PStr "token") (PStr "visitor") eq_refl eq_refl)
    as (_ & _ & H & _).
  exact H.
Defined.

(** ** Validation of the request *)

Section handlers.
Variable W : World.

Lemma with_valid_url_missing data k :
  truthy (dict_get data "url") = false ->
  with_valid_url data k = ret (Response (error_body missing_url_message) 400).
Proof. intros H. unfold with_valid_url. by rewrite H. Qed.

Lemma with_valid_url_invalid data k u :
  dict_get data "url" = PStr u -> u <> "" -> is_valid_youtube_url u = false ->
  with_valid_url data k = ret (Response (error_body invalid_url_message) 400).
Proof.
  intros Hu Hne Hv. unfold with_valid_url. rewrite Hu, Hv.
  by destruct u.
Qed.

Lemma with_valid_url_valid data k u :
  dict_get data "url" = PStr u -> is_valid_youtube_url u = true ->
  with_valid_url data k =
    k u (dict_get data "po_token") (dict_get data "visitor_data").
Proof.
  intros Hu Hv. unfold with_valid_url. rewrite Hu, Hv.
  destruct u; [discriminate Hv | done].
Qed.

Lemma with_valid_url_trace data k :
  trace (with_valid_url data k) <> [] ->
  exists u, dict_get data "url" = PStr u /\ is_valid_youtube_url u = true.
Proof.
  unfold with_valid_url.
  destruct (truthy (dict_get data "url")); simpl;
    [|intros H; exfalso; by apply H].
  destruct (dict_get data "url") as [| | |u| | |]; simpl;
    try (intros H; exfalso; by apply H).
  destruct (is_valid_youtube_url u) eqn:Hv; simpl;
    [by exists u | intros H; exfalso; by apply H].
Qed.

(** C5, amended: a request whose body is a JSON object in which the url is
    missing or falsy, or is a string the validator refuses, is answered 400
    with one of the two fixed messages, the invalid-URL one when the url is
    a non-empty string, by each of the three handlers, and nothing is
    called and nothing is written; any effect of a handler comes after its
    url has passed validation. *)
Theorem invalid_request_rejected (resolution : string)
    (data : gmap string pyval) :
  let url := dict_get data "url" in
  (truthy url = false \/
   exists u, url = PStr u /\ is_valid_youtube_url u = false) ->
  (exists msg,
     (msg = missing_url_message \/ msg = invalid_url_message) /\
     (truthy url = true -> msg = invalid_url_message) /\
     forall h, h ∈ served W resolution data ->
       h = ([], Ok (Response (error_body msg) 400))) /\
  (forall h, h ∈ served W resolution data -> trace h <> [] ->
     exists u, url = PStr u /\ is_valid_youtube_url u = true).
Proof.
  intros url Hbad. split.
  - destruct (truthy url) eqn:Ht.
    + destruct Hbad as [?|(u & Hu & Hv)]; [done|].
      exists invalid_url_message. split; [by right|]. split; [done|].
      assert (u <> "") by (intros ->; by rewrite Hu in Ht).
      intros h Hh. unfold served in Hh.
      repeat (apply elem_of_cons in Hh as [->|Hh]);
        [| | |by apply not_elem_of_nil in Hh];
        unfold download_by_resolution, video_info, available_resolutions;
        by erewrite with_valid_url_invalid.
    + exists missing_url_message. split; [by left|]. split; [done|].
      intros h Hh. unfold served in Hh.
      repeat (apply elem_of_cons in Hh as [->|Hh]);
        [| | |by apply not_elem_of_nil in Hh];
        unfold download_by_resolution, video_info, available_resolutions;
        by rewrite with_valid_url_missing.
  - intros h Hh. unfold served in Hh.
    repeat (apply elem_of_cons in Hh as [->|Hh]);
      [| | |by apply not_elem_of_nil in Hh];
      apply with_valid_url_trace.
Qed.

(** C10: a request whose url is the empty string is answered 400 with the
    missing-parameter message by each of the three handlers. *)
Theorem empty_url_is_missing (resolution : string) (data : gmap string pyval) :
  data !! "url" = Some (PStr "") ->
  forall h, h ∈ served W resolution data ->
    h = ([], Ok (Response (error_body missing_url_message) 400)).
Proof.
  intros Hu h Hh.
  assert (truthy (dict_get data "url") = false)
    by (unfold dict_get; by rewrite Hu).
  unfold served in Hh.
  repeat (apply elem_of_cons in Hh as [->|Hh]);
    [| | |by apply not_elem_of_nil in Hh];
    unfold download_by_resolution, video_info, available_resolutions;
    by rewrite with_valid_url_missing.
Qed.

End handlers.

(** ** Effects of the handlers *)

Lemma outcome_bind {A B : Type} (m : M A) (f : A -> M B) :
  outcome (bind m f) =
    match outcome m with
    | Ok a => outcome (f a)
    | Raise e => Raise e
    end.
Proof. destruct m as [t [a|e]]; simpl; [by destruct (f a) | done]. Qed.

Lemma trace_bind {A B : Type} (m : M A) (f : A -> M B) :
  trace (bind m f) =
    trace m ++ match outcome m with
               | Ok a => trace (f a)
               | Raise _ => []
               end.
Proof.
  destruct m as [t [a|e]]; simpl; [by destruct (f a) | by rewrite app_nil_r].
Qed.

Lemma outcome_try {A : Type} (m : M A) (h : exn -> M A) :
  outcome (try_except m h) =
    match outcome m with
    | Ok a => Ok a
    | Raise e => outcome (h e)
    end.
Proof. destruct m as [t [a|e]]; simpl; [done | by destruct (h e)]. Qed.

Lemma trace_try {A : Type} (m : M A) (h : exn -> M A) :
  trace (try_except m h) =
    trace m ++ match outcome m with
               | Ok _ => []
               | Raise e => trace (h e)
               end.
Proof.
  destruct m as [t [a|e]]; simpl; [by rewrite app_nil_r | by destruct (h e)].
Qed.

Lemma for_each_print {A : Type} (l : list A) (g : A -> string) :
  for_each l (fun x => print (g x)) = ((fun x => EPrint (g x)) <$> l, Ok tt).
Proof.
  induction l as [|x l IH]; simpl; [done|]. by rewrite IH.
Qed.

Lemma fs_events_app (t1 t2 : list event) :
  fs_events (t1 ++ t2) = fs_events t1 ++ fs_events t2.
Proof. apply List.filter_app. Qed.

Lemma fs_events_prints {A : Type} (l : list A) (g : A -> string) :
  fs_events ((fun x => EPrint (g x)) <$> l) = [].
Proof. induction l as [|x l IH]; simpl; [done|]. exact IH. Qed.

(** The resolver touches no file. *)
Lemma get_yt_object_no_fs W url po_token visitor_data :
  fs_events (trace (get_yt_object W url po_token visitor_data)) = [].
Proof.
  unfold get_yt_object.
  destruct (truthy po_token && truthy visitor_data).
  - destruct (lib_InnerTube W "WEB" true) as [it0|e]; [|done].
    unfold set_context.
    destruct (context it0 !! "client") as [d|] eqn:Hd;
      [|by cbn; rewrite Hd].
    cbn. rewrite Hd. cbn.
    destruct (_ !! "serviceIntegrityDimensions") as [d'|]; [|done].
    cbn. destruct (lib_YouTube W url _) as [yt|e]; [|done].
    cbn. by destruct (YouTube.title yt).
  - destruct (lib_YouTube W url (ClientNamed "WEB")) as [yt|e]; cbn.
    + destruct (YouTube.title yt) as [v|e]; cbn; [done|].
      destruct (is_bot_error e); cbn; [|done].
      by destruct (lib_YouTube W url ClientDefault).
    + destruct (is_bot_error e); cbn; [|done].
      by destruct (lib_YouTube W url ClientDefault).
Qed.

Lemma outcome_for_each_print {A : Type} (l : list A) (g : A -> string) :
  outcome (for_each l (fun x => print (g x))) = Ok tt.
Proof. by rewrite for_each_print. Qed.

Lemma fs_for_each_print {A : Type} (l : list A) (g : A -> string) :
  fs_events (trace (for_each l (fun x => print (g x)))) = [].
Proof. rewrite for_each_print. apply fs_events_prints. Qed.

Ltac effects :=
  repeat first
    [ rewrite outcome_bind | rewrite outcome_try
    | rewrite trace_bind | rewrite trace_try
    | rewrite fs_events_app
    | rewrite outcome_for_each_print | rewrite fs_for_each_print
    | rewrite get_yt_object_no_fs
    | progress cbn [outcome trace fst snd call print lift ret raise
                    fs_events List.filter is_fs_event app] ].

Section download.
Variable W : World.

(** The outcome of [download_video]. *)
Lemma download_video_outcome url resolution po_token visitor_data :
  outcome (download_video W url resolution po_token visitor_data) =
    match outcome (get_yt_object W url po_token visitor_data) with
    | Raise e => Ok (false, Some (exn_str e))
    | Ok yt =>
        match YouTube.streams yt with
        | Raise e => Ok (false, Some (exn_str e))
        | Ok ss =>
            match head (stream_filter (Some true) (Some "mp4")
                          (Some resolution) ss) with
            | None => Ok (false, Some not_found_message)
            | Some stream =>
                match out_dir_of url with
                | Raise e => Ok (false, Some (exn_str e))
                | Ok out_dir =>
                    match os_makedirs W out_dir with
                    | Raise e => Ok (false, Some (exn_str e))
                    | Ok _ =>
                        match Stream.download stream out_dir with
                        | Raise e => Ok (false, Some (exn_str e))
                        | Ok _ => Ok (true, None)
                        end
                    end
                end
            end
        end
    end.
Proof.
  unfold download_video. effects.
  destruct (outcome (get_yt_object _ _ _ _)) as [yt|e]; [|done]. effects.
  destruct (YouTube.streams yt) as [ss|e]; [|done]. effects.
  destruct (head _) as [stream|]; effects; [|done].
  destruct (out_dir_of url) as [out_dir|e]; [|done]. effects.
  destruct (os_makedirs W out_dir) as [u|e]; [|done]. effects.
  by destruct (Stream.download stream out_dir).
Qed.

(** The files [download_video] touches. *)
Lemma download_video_fs url resolution po_token visitor_data :
  fs_events (trace (download_video W url resolution po_token visitor_data)) =
    match outcome (get_yt_object W url po_token visitor_data) with
    | Raise e => []
    | Ok yt =>
        match YouTube.streams yt with
        | Raise e => []
        | Ok ss =>
            match head (stream_filter (Some true) (Some "mp4")
                          (Some resolution) ss) with
            | None => []
            | Some stream =>
                match out_dir_of url with
                | Raise e => []
                | Ok out_dir =>
                    EMakedirs out_dir true ::
                    match os_makedirs W out_dir with
                    | Raise e => []
                    | Ok _ => [EDownload stream out_dir]
                    end
                end
            end
        end
    end.
Proof.
  unfold download_video. effects.
  destruct (outcome (get_yt_object _ _ _ _)) as [yt|e]; [|done]. effects.
  destruct (YouTube.streams yt) as [ss|e]; [|done]. effects.
  destruct (head _) as [stream|]; effects; [|done].
  destruct (out_dir_of url) as [out_dir|e]; [|done]. effects.
  destruct (os_makedirs W out_dir) as [u|e]; [|done]. effects.
  by destruct (Stream.download stream out_dir).
Qed.

End download.

(** ** The output directory *)

Section output_directory.
Import PyStr PyStrFacts.

Lemma out_dir_of_eq url :
  out_dir_of url =
    match after_first "v=" url with
    | Some rest => Ok ("./downloads/" +:+ before "&" (before "v=" rest))
    | None => Raise IndexError
    end.
Proof.
  unfold out_dir_of, py_index. rewrite split_second by done.
  destruct (after_first "v=" url) as [rest|]; [|done].
  by rewrite split_head.
Qed.

(** In a valid url the first [v=] is the one of the pattern. *)
Lemma partition_watch_prefix sch www rest :
  sch ∈ schemes -> www ∈ subdomains ->
  partition "v=" (sch +:+ www +:+ "youtube.com/watch?v=" +:+ rest) =
    Some (sch +:+ www +:+ "youtube.com/watch?", rest).
Proof.
  unfold schemes, subdomains. intros Hs Hw.
  repeat (apply elem_of_cons in Hs as [->|Hs]);
    [| | |by apply not_elem_of_nil in Hs];
    (repeat (apply elem_of_cons in Hw as [->|Hw]);
       [| |by apply not_elem_of_nil in Hw]); reflexivity.
Qed.

Lemma strip_eq_token tok y :
  all_chars word_or_hyphen tok = true -> token_end y ->
  strip_prefix "=" (tok +:+ y) = None.
Proof.
  destruct tok as [|c tok].
  - by intros _ [->|[->|[q ->]]].
  - intros Htok _. simpl in Htok. apply andb_true_iff in Htok as [Hc _].
    change (String c tok +:+ y) with (String c (tok +:+ y)).
    rewrite strip_prefix_cons.
    destruct (Ascii.eqb_spec "=" c) as [<-|]; [by vm_compute in Hc | done].
Qed.

Lemma before_amp_token tok y :
  all_chars word_or_hyphen tok = true -> token_end y ->
  before "&" (before "v=" (tok +:+ y)) = before "&" (tok +:+ y).
Proof.
  intros Htok Hy. induction tok as [|c tok IH].
  - destruct Hy as [->|[->|[q ->]]]; [done..|].
    change ("" +:+ String "&" q) with (String "&" q).
    rewrite (before_cons "v=") by done. reflexivity.
  - simpl in Htok. apply andb_true_iff in Htok as [Hc Htok].
    change (String c tok +:+ y) with (String c (tok +:+ y)).
    assert (Hv : strip_prefix "v=" (String c (tok +:+ y)) = None).
    { rewrite strip_prefix_cons. destruct (Ascii.eqb "v" c); [|done].
      by apply strip_eq_token. }
    assert (Ha : forall s, strip_prefix "&" (String c s) = None).
    { intros s. rewrite strip_prefix_cons.
      destruct (Ascii.eqb_spec "&" c) as [<-|]; [by vm_compute in Hc | done]. }
    rewrite (before_cons "v=") by done.
    rewrite !(before_cons "&") by done. f_equal. by apply IH.
Qed.

(** C8, on strings: for a url the validator accepts the two splits find
    their components, and the directory is [./downloads/] followed by the
    text between the first [v=] and the next [&]. *)
Lemma out_dir_of_valid url :
  is_valid_youtube_url url = true ->
  exists video_id,
    spec_video_id url = Some video_id /\
    out_dir_of url = Ok ("./downloads/" +:+ video_id).
Proof.
  intros Hv.
  assert (exists sch www tok y,
            sch ∈ schemes /\ www ∈ subdomains /\
            all_chars word_or_hyphen tok = true /\ token_end y /\
            url = sch +:+ www +:+ "youtube.com/watch?v=" +:+ tok +:+ y)
    as (sch & www & tok & y & Hs & Hw & Htok & Hy & ->).
  { apply is_valid_youtube_url_iff in Hv
      as [(sch & www & tok & tail & Hs & Hw & [_ Htok] & Htail & ->)
         |(u & -> & sch & www & tok & tail & Hs & Hw & [_ Htok] & Htail & ->)].
    - exists sch, www, tok, tail. repeat split; try done.
      destruct Htail as [->|(q & -> & _)]; [by left | right; right; eauto].
    - exists sch, www, tok, (tail +:+ LF). repeat split; try done.
      + destruct Htail as [->|(q & -> & _)];
          [right; by left | right; right; simpl; eauto].
      + by rewrite !str_app_assoc. }
  exists (before "&" (tok +:+ y)).
  rewrite out_dir_of_eq. unfold spec_video_id, after_first.
  rewrite partition_watch_prefix by done.
  split; [done|]. by rewrite before_amp_token.
Qed.

End output_directory.

(** ** The handlers on a valid request *)

Section valid_request.
Variable W : World.
Variables (data : gmap string pyval) (url : string).
Hypothesis Hurl : dict_get data "url" = PStr url.
Hypothesis Hvalid : is_valid_youtube_url url = true.

Let po_token := dict_get data "po_token".
Let visitor_data := dict_get data "visitor_data".

Lemma download_by_resolution_outcome resolution :
  outcome (download_by_resolution W resolution data) =
    match outcome (download_video W url resolution po_token visitor_data) with
    | Ok (true, _) =>
        Ok (Response
              (PDict [("message",
                       PStr ("Video with resolution " +:+ resolution
                             +:+ " downloaded successfully."))]) 200)
    | Ok (false, error_message) =>
        Ok (Response
              (PDict [("error",
                       match error_message with
                       | Some msg => PStr msg
                       | None => PNone
                       end)]) 500)
    | Raise e => Raise e
    end.
Proof.
  unfold download_by_resolution.
  rewrite (with_valid_url_valid _ _ _ Hurl Hvalid). fold po_token visitor_data.
  rewrite outcome_bind.
  destruct (outcome (download_video _ _ _ _ _)) as [[[] msg]|e]; done.
Qed.

Lemma download_by_resolution_fs resolution :
  fs_events (trace (download_by_resolution W resolution data)) =
  fs_events (trace (download_video W url resolution po_token visitor_data)).
Proof.
  unfold download_by_resolution.
  rewrite (with_valid_url_valid _ _ _ Hurl Hvalid). fold po_token visitor_data.
  rewrite trace_bind, fs_events_app.
  destruct (outcome (download_video _ _ _ _ _)) as [[[] msg]|e];
    simpl; by rewrite app_nil_r.
Qed.

(** C6: on a valid request whose session is resolved and lists no
    progressive mp4 stream at the requested resolution, the download
    handler answers 500 with the fixed not-found message and touches no
    file; when the resolver fails instead, it answers 500 with the message
    of that error. *)
Theorem resolution_not_found (resolution : string) :
  let r := download_by_resolution W resolution data in
  (forall yt ss,
     outcome (get_yt_object W url po_token visitor_data) = Ok yt ->
     YouTube.streams yt = Ok ss ->
     stream_filter (Some true) (Some "mp4") (Some resolution) ss = [] ->
     outcome r = Ok (Response (error_body not_found_message) 500) /\
     fs_events (trace r) = []) /\
  (forall e,
     outcome (get_yt_object W url po_token visitor_data) = Raise e ->
     outcome r = Ok (Response (error_body (exn_str e)) 500) /\
     fs_events (trace r) = []).
Proof.
  intros r. subst r.
  rewrite download_by_resolution_outcome, download_by_resolution_fs.
  rewrite download_video_outcome, download_video_fs. split.
  - intros yt ss -> -> ->. done.
  - intros e ->. done.
Qed.

(** C8: for a url the validator accepts, the directory of the download is
    [./downloads/] followed by the text of the url between its first [v=]
    and the next [&]; deriving it does not fail, and the handler creates
    and writes no other place: its filesystem effects are none, the
    creation of that directory, or that creation and one download into
    it. *)
Theorem one_output_directory (resolution : string) :
  exists video_id,
    spec_video_id url = Some video_id /\
    out_dir_of url = Ok ("./downloads/" +:+ video_id) /\
    let out_dir := "./downloads/" +:+ video_id in
    let fs := fs_events (trace (download_by_resolution W resolution data)) in
    fs = [] \/ fs = [EMakedirs out_dir true] \/
    exists stream, fs = [EMakedirs out_dir true; EDownload stream out_dir].
Proof.
  destruct (out_dir_of_valid url Hvalid) as (video_id & Hid & Hdir).
  exists video_id. split; [done|]. split; [done|]. cbv zeta.
  rewrite download_by_resolution_fs, download_video_fs, Hdir.
  destruct (outcome (get_yt_object _ _ _ _)) as [yt|e]; [|by left].
  destruct (YouTube.streams yt) as [ss|e]; [|by left].
  destruct (head _) as [stream|]; [|by left].
  destruct (os_makedirs W _) as [u|e]; [|right; by left].
  right. right. by exists stream.
Qed.

Lemma video_info_outcome :
  outcome (video_info W data) =
    match outcome (get_video_info W url po_token visitor_data) with
    | Ok (Some ((_ :: _) as items), _) => Ok (Response (PDict items) 200)
    | Ok (_, error_message) =>
        Ok (Response
              (PDict [("error",
                       match error_message with
                       | Some msg => PStr msg
                       | None => PNone
                       end)]) 500)
    | Raise e => Raise e
    end.
Proof.
  unfold video_info.
  rewrite (with_valid_url_valid _ _ _ Hurl Hvalid). fold po_token visitor_data.
  rewrite outcome_bind.
  destruct (outcome (get_video_info _ _ _ _)) as [[[[|]|] msg]|e]; done.
Qed.

(** C7, amended: on a valid request whose session is resolved and whose
    stream listing succeeds, the video information handler answers 200
    with the six fields title, author, length, views, description and
    publish_date, each the value its accessor returned; when the stream
    listing raises, it answers 500 with the message of that error. *)
Theorem video_info_verbatim (yt : YouTube.t) :
  outcome (get_yt_object W url po_token visitor_data) = Ok yt ->
  (forall ss title author length views description publish_date,
     YouTube.streams yt = Ok ss ->
     YouTube.title yt = Ok title -> YouTube.author yt = Ok author ->
     YouTube.length yt = Ok length -> YouTube.views yt = Ok views ->
     YouTube.description yt = Ok description ->
     YouTube.publish_date yt = Ok publish_date ->
     outcome (video_info W data) =
       Ok (Response
             (info_body title author length views description publish_date)
             200)) /\
  (forall e,
     YouTube.streams yt = Raise e ->
     outcome (video_info W data) = Ok (Response (error_body (exn_str e)) 500)).
Proof.
  intros Hyt. rewrite video_info_outcome. unfold get_video_info.
  rewrite outcome_try, outcome_bind, Hyt. split.
  - intros ss title author length views description publish_date
      Hs Ht Ha Hl Hv Hd Hp.
    effects. rewrite Hs. effects. rewrite Ht. effects. rewrite Ha. effects.
    rewrite Hl. effects. rewrite Hv. effects. rewrite Hd. effects.
    rewrite Hp. by effects.
  - intros e Hs. effects. rewrite Hs. by effects.
Qed.

Lemma elem_of_labels (progressive : option bool) (ss : list Stream.t) x :
  x ∈ resolution_labels (stream_filter progressive (Some "mp4") None ss) <->
  label_of (match progressive with Some true => true | _ => false end) ss x.
Proof.
  unfold resolution_labels, stream_filter, label_of.
  rewrite list_elem_of_omap. split.
  - intros (s & Hin & Hs).
    apply list_elem_of_In, List.filter_In in Hin as [Hin Hf].
    apply list_elem_of_In in Hin.
    rewrite andb_true_r in Hf. apply andb_true_iff in Hf as [Hprog Hext].
    apply String.eqb_eq in Hext.
    destruct (Stream.resolution s) as [r|] eqn:Hr; [|done].
    destruct r as [|c r]; [done|]. injection Hs as <-.
    exists s. repeat split; try done.
    intros Hp. by destruct progressive as [[]|].
  - intros (s & Hin & Hprog & Hext & Hr & Hne).
    exists s. split.
    + apply list_elem_of_In, List.filter_In. split; [by apply list_elem_of_In|].
      rewrite andb_true_r. apply andb_true_iff. split.
      * destruct progressive as [[]|]; auto.
      * by apply String.eqb_eq.
    + rewrite Hr. by destruct x.
Qed.

Lemma sorted_list_set (P : string -> Prop) (l : list string) :
  (forall x, x ∈ l <-> P x) -> sorted_listing P (sorted (list_set l)).
Proof.
  intros HP. unfold sorted_listing, sorted, list_set. split; [|split].
  - apply StronglySorted_merge_sort; apply _.
  - rewrite merge_sort_Permutation. apply NoDup_elements.
  - intros x. rewrite merge_sort_Permutation, elem_of_elements,
      elem_of_list_to_set. apply HP.
Qed.

(** C4: on a valid request whose session is resolved, with its streams
    listed, the handler answers 200 with the lists [progressive] and
    [all]: the labels of the progressive mp4 streams and of all mp4
    streams, each label once, in the order of the code points, with no
    entry for a stream whose label is empty or absent. *)
Theorem resolutions_sorted_distinct (yt : YouTube.t) (ss : list Stream.t) :
  outcome (get_yt_object W url po_token visitor_data) = Ok yt ->
  YouTube.streams yt = Ok ss ->
  exists progressive all,
    outcome (available_resolutions W data) =
      Ok (Response (PDict [("progressive", str_list progressive);
                           ("all", str_list all)]) 200) /\
    sorted_listing (label_of true ss) progressive /\
    sorted_listing (label_of false ss) all.
Proof.
  intros Hyt Hs. unfold available_resolutions.
  rewrite (with_valid_url_valid _ _ _ Hurl Hvalid). fold po_token visitor_data.
  rewrite outcome_try, outcome_bind, Hyt. effects. rewrite Hs. effects.
  eexists _, _. split; [reflexivity|]. split.
  - apply sorted_list_set. intros x.
    apply (elem_of_labels (Some true)).
  - apply sorted_list_set. intros x.
    apply (elem_of_labels None).
Qed.

(** When the stream listing of the resolved session raises, both handlers
    that need it answer 500 with the message of that error. *)
Lemma listing_fails (resolution : string) (yt : YouTube.t) (e : exn) :
  outcome (get_yt_object W url po_token visitor_data) = Ok yt ->
  YouTube.streams yt = Raise e ->
  outcome (available_resolutions W data) =
    Ok (Response (error_body (exn_str e)) 500) /\
  outcome (download_by_resolution W resolution data) =
    Ok (Response (error_body (exn_str e)) 500).
Proof.
  intros Hyt Hs. split.
  - unfold available_resolutions.
    rewrite (with_valid_url_valid _ _ _ Hurl Hvalid).
    fold po_token visitor_data.
    rewrite outcome_try, outcome_bind, Hyt. effects. rewrite Hs. by effects.
  - by rewrite download_by_resolution_outcome, download_video_outcome, Hyt, Hs.
Qed.

End valid_request.

(** ** The validator against the shape of the specification *)

Lemma ends_with_newline_app (u : string) : ends_with_newline (u +:+ LF) = true.
Proof.
  induction u as [|c u IH]; [done|].
  change (String c u +:+ LF) with (String c (u +:+ LF)).
  destruct u as [|d u]; [done | exact IH].
Qed.

(** C3, amended: on the strings that do not end with a newline the
    validator answers true exactly for those of the shape: an optional
    [http://] or [https://], an optional [www.], [youtube.com/watch?v=], one
    or more word characters or hyphens, and optionally [&] followed by
    characters none of which is white space. *)
Theorem validator_accepts_watch_urls (url : string) :
  ends_with_newline url = false ->
  (is_valid_youtube_url url = true <-> watch_url non_space url).
Proof.
  intros Hnl. rewrite is_valid_youtube_url_iff. split; [|by left].
  intros [H|(u & -> & _)]; [done|].
  by rewrite ends_with_newline_app in Hnl.
Qed.

(** C3, amended, at the sample url. *)
Lemma validator_accepts_watch_urls_witness :
  is_valid_youtube_url sample_url = true <-> watch_url non_space sample_url.
Proof. apply validator_accepts_watch_urls. reflexivity. Defined.

(** C3 as worded fails both ways: a watch-page URL followed by a newline is
    accepted although it is not of the shape, and a URL of the shape whose
    further query content holds a space is refused. *)
Lemma validator_differs_from_shape :
  (is_valid_youtube_url ("youtube.com/watch?v=abc" +:+ LF) = true /\
   ~ spec_watch_url ("youtube.com/watch?v=abc" +:+ LF)) /\
  (spec_watch_url "youtube.com/watch?v=abc&a b" /\
   is_valid_youtube_url "youtube.com/watch?v=abc&a b" = false).
Proof.
  split; split.
  - reflexivity.
  - intros (sch & www & tok & tail & Hs & Hw & [Hne Htok] & Htail & Heq).
    unfold schemes, subdomains in *.
    repeat (apply elem_of_cons in Hs as [->|Hs]);
      [| | |by apply not_elem_of_nil in Hs];
      (repeat (apply elem_of_cons in Hw as [->|Hw]);
         [| |by apply not_elem_of_nil in Hw]); try discriminate Heq.
    simpl in Heq. injection Heq as Heq.
    destruct tok as [|c1 [|c2 [|c3 [|c4 [|c5 tok]]]]]; try done;
      simpl in Heq; injection Heq; intros; subst;
      try discriminate;
      try (destruct Htail as [?|(q & ? & _)]; discriminate).
  - exists "", "", "abc", "&a b". unfold schemes, subdomains.
    repeat split; try done; try set_solver.
    right. by exists "a b".
  - reflexivity.
Qed.

(** ** The scenarios of the specification *)

(** C5 as worded fails: a url that is a number is given and is no valid
    url, yet no handler answers 400: [re.match] raises [TypeError] and the
    exception leaves the handler. *)
Lemma non_string_url_not_rejected :
  truthy (dict_get numeric_request "url") = true /\
  (forall u, dict_get numeric_request "url" <> PStr u) /\
  forall h, h ∈ served sample_world "720p" numeric_request ->
    outcome h = Raise TypeError /\
    ~ exists msg, h = ([], Ok (Response (error_body msg) 400)).
Proof.
  split; [reflexivity|]. split; [intros u; discriminate|].
  intros h Hh. unfold served in Hh.
  repeat (apply elem_of_cons in Hh as [->|Hh]);
    [| | |by apply not_elem_of_nil in Hh];
    (split; [vm_compute; reflexivity | intros [msg Hmsg]; discriminate Hmsg]).
Qed.

(** C5, amended, at scenario B: a malformed url on the download endpoint. *)
Lemma invalid_request_rejected_witness :
  download_by_resolution sample_world "720p" bad_request =
    ([], Ok (Response (error_body invalid_url_message) 400)).
Proof.
  destruct (invalid_request_rejected sample_world "720p" bad_request)
    as [(msg & _ & Hmsg & Hh) _].
  - right. exists "not-a-url". split; reflexivity.
  - rewrite <- (Hmsg eq_refl). apply Hh. apply list_elem_of_here.
Defined.

(** C10 at the video information endpoint. *)
Lemma empty_url_is_missing_witness :
  video_info sample_world empty_request =
    ([], Ok (Response (error_body missing_url_message) 400)).
Proof.
  apply (empty_url_is_missing sample_world "720p" empty_request eq_refl).
  apply list_elem_of_further, list_elem_of_here.
Defined.

(** C6 at scenario C: no progressive stream at 1080p. *)
Lemma resolution_not_found_witness :
  outcome (download_by_resolution sample_world "1080p" sample_request) =
    Ok (Response (error_body not_found_message) 500) /\
  fs_events (trace (download_by_resolution sample_world "1080p" sample_request))
    = [].
Proof.
  destruct (resolution_not_found sample_world sample_request sample_url
              eq_refl eq_refl "1080p") as [H _].
  exact (H sample_session sample_streams eq_refl eq_refl eq_refl).
Defined.

(** C7, amended, at scenario A. *)
Lemma video_info_verbatim_witness :
  outcome (video_info sample_world sample_request) =
    Ok (Response
          (info_body (PStr "T") (PStr "A") (PInt 120) (PInt 5) (PStr "D")
             (PDatetime 1700000000)) 200).
Proof.
  destruct (video_info_verbatim sample_world sample_request sample_url
              eq_refl eq_refl sample_session eq_refl) as [H _].
  exact (H sample_streams _ _ _ _ _ _ eq_refl eq_refl eq_refl eq_refl eq_refl
           eq_refl eq_refl).
Defined.

(** C7 as worded fails: the session is resolved and every metadata
    accessor answers, yet the handler reads the stream listing first, and
    when that raises the answer is 500. *)
Lemma video_info_fails_without_streams :
  dict_get sample_request "url" = PStr sample_url /\
  is_valid_youtube_url sample_url = true /\
  outcome (get_yt_object unavailable_world sample_url
             (dict_get sample_request "po_token")
             (dict_get sample_request "visitor_data")) = Ok unavailable_session /\
  YouTube.title unavailable_session = Ok (PStr "T") /\
  YouTube.author unavailable_session = Ok (PStr "A") /\
  YouTube.length unavailable_session = Ok (PInt 120) /\
  YouTube.views unavailable_session = Ok (PInt 5) /\
  YouTube.description unavailable_session = Ok (PStr "D") /\
  YouTube.publish_date unavailable_session = Ok (PDatetime 1700000000) /\
  outcome (video_info unavailable_world sample_request) =
    Ok (Response (error_body "abc123 is unavailable") 500).
Proof. repeat split; vm_compute; reflexivity. Qed.

(** C8 at the sample url. *)
Lemma one_output_directory_witness :
  spec_video_id sample_url = Some "abc123" /\
  out_dir_of sample_url = Ok "./downloads/abc123" /\
  exists stream,
    fs_events (trace (download_by_resolution sample_world "720p" sample_request))
    = [EMakedirs "./downloads/abc123" true;
       EDownload stream "./downloads/abc123"].
Proof.
  destruct (one_output_directory sample_world sample_request sample_url
              eq_refl eq_refl "720p") as (video_id & Hid & Hdir & Hfs).
  injection Hid as <-. split; [done|]. split; [done|].
  destruct Hfs as [Hfs|[Hfs|Hfs]]; [discriminate Hfs..|exact Hfs].
Defined.

(** C4 at scenario D. *)
Lemma resolutions_sorted_distinct_witness :
  exists progressive all,
    outcome (available_resolutions sample_world sample_request) =
      Ok (Response (PDict [("progressive", str_list progressive);
                           ("all", str_list all)]) 200) /\
    sorted_listing (label_of true sample_streams) progressive /\
    sorted_listing (label_of false sample_streams) all.
Proof.
  exact (resolutions_sorted_distinct sample_world sample_request sample_url
           eq_refl eq_refl sample_session sample_streams eq_refl eq_refl).
Defined.

(** Scenario D as computed: the lists are in the order of the code points,
    so 1080p comes before 480p. *)
Example scenario_D :
  outcome (available_resolutions sample_world sample_request) =
    Ok (Response
          (PDict [("progressive", PList [PStr "480p"; PStr "720p"]);
                  ("all", PList [PStr "1080p"; PStr "480p"; PStr "720p"])])
          200).
Proof. vm_compute. reflexivity. Qed.

(** A download that succeeds. *)
Example scenario_download :
  outcome (download_by_resolution sample_world "720p" sample_request) =
    Ok (Response
          (PDict [("message",
                   PStr "Video with resolution 720p downloaded successfully.")])
          200).
Proof. vm_compute. reflexivity. Qed.

(** A url that is no string makes [re.match] raise: the exception leaves
    the handler. *)
Example url_not_a_string :
  video_info sample_world {[ "url" := PInt 5 ]} = ([], Raise TypeError).
Proof. vm_compute. reflexivity. Qed.

(** ** Further properties: strings and the validator *)

Section more_strings.
Import PyStr PyStrFacts.

Lemma lower_app (a b : string) : lower (a +:+ b) = lower a +:+ lower b.
Proof. induction a as [|c a IH]; simpl; [done | by rewrite IH]. Qed.

Lemma lower_split (s a b : string) :
  lower s = a +:+ b ->
  exists s1 s2, s = s1 +:+ s2 /\ lower s1 = a /\ lower s2 = b.
Proof.
  revert s. induction a as [|c a IH]; intros s; simpl.
  - intros <-. by exists "", s.
  - destruct s as [|d s]; [done|]. simpl. intros [= <- H].
    destruct (IH _ H) as (s1 & s2 & -> & <- & <-).
    by exists (String d s1), s2.
Qed.

Lemma contains_unfold (sub s : string) :
  contains sub s =
    match strip_prefix sub s with
    | Some _ => true
    | None =>
        match s with
        | EmptyString => false
        | String _ s' => contains sub s'
        end
    end.
Proof. by destruct s. Qed.

Lemma contains_iff (sub s : string) :
  contains sub s = true <-> exists pre post, s = pre +:+ sub +:+ post.
Proof.
  split.
  - induction s as [|c s IH]; rewrite contains_unfold.
    + destruct (strip_prefix sub "") as [r|] eqn:Hp; [|done].
      intros _. apply strip_prefix_Some in Hp. by exists "", r.
    + destruct (strip_prefix sub (String c s)) as [r|] eqn:Hp.
      * intros _. apply strip_prefix_Some in Hp. by exists "", r.
      * intros (pre & post & ->)%IH. by exists (String c pre), post.
  - intros (pre & post & ->). induction pre as [|c pre IH].
    + rewrite contains_unfold. simpl. by rewrite strip_prefix_app.
    + rewrite contains_unfold.
      change (String c pre +:+ sub +:+ post)
        with (String c (pre +:+ sub +:+ post)).
      by destruct (strip_prefix sub _).
Qed.

(** X13: the fallback test holds exactly for the messages with an
    occurrence of the letters b, o, t in a row, each in either case. *)
Theorem bot_error_iff (cls msg : string) :
  is_bot_error (Exn cls msg) = true <->
  exists pre x post, msg = pre +:+ x +:+ post /\ lower x = "bot".
Proof.
  unfold is_bot_error. simpl. rewrite contains_iff. split.
  - intros (a & b & H).
    apply lower_split in H as (pre & rest & -> & <- & H).
    apply lower_split in H as (x & post & -> & Hx & <-).
    by exists pre, x, post.
  - intros (pre & x & post & -> & Hx).
    exists (lower pre), (lower post). by rewrite !lower_app, Hx.
Qed.

(** X12: the sorted list does not depend on the order in which the set
    hands out its elements. *)
Theorem sorted_order_independent (l1 l2 : list string) :
  l1 ≡ₚ l2 -> sorted l1 = sorted l2.
Proof.
  intros Hp. unfold sorted.
  apply (StronglySorted_unique String.le).
  - apply StronglySorted_merge_sort; apply _.
  - apply StronglySorted_merge_sort; apply _.
  - by rewrite !merge_sort_Permutation.
Qed.

Lemma sorted_order_independent_witness :
  sorted ["720p"; "480p"; "1080p"] = sorted ["1080p"; "720p"; "480p"].
Proof.
  apply sorted_order_independent.
  symmetry. apply (Permutation_cons_append ["720p"; "480p"] "1080p").
Defined.

(** X1: the validator accepts exactly the watch-page URLs whose further
    query content holds no white space, and each of them followed by one
    newline. *)
Theorem validator_accepted_strings (url : string) :
  is_valid_youtube_url url = true <->
  watch_url non_space url \/
  exists u, url = u +:+ LF /\ watch_url non_space u.
Proof. apply is_valid_youtube_url_iff. Qed.

Lemma valid_url_parts (url : string) :
  is_valid_youtube_url url = true ->
  exists sch www tok y,
    sch ∈ schemes /\ www ∈ subdomains /\ video_token tok /\
    (y = "" \/ y = LF \/
     exists q, (y = String "&" q \/ y = String "&" q +:+ LF) /\
               all_chars non_space q = true) /\
    url = sch +:+ www +:+ "youtube.com/watch?v=" +:+ tok +:+ y.
Proof.
  intros Hv. apply is_valid_youtube_url_iff in Hv
    as [(sch & www & tok & tail & Hs & Hw & Htok & Htail & ->)
       |(u & -> & sch & www & tok & tail & Hs & Hw & Htok & Htail & ->)].
  - exists sch, www, tok, tail. repeat split; try done; try apply Htok.
    destruct Htail as [->|(q & -> & Hq)]; [by left | right; right; eauto].
  - exists sch, www, tok, (tail +:+ LF).
    split; [done|]. split; [done|]. split; [done|]. split.
    + destruct Htail as [->|(q & -> & Hq)]; [right; by left|].
      right. right. exists q. split; [by right | done].
    + by rewrite !str_app_assoc.
Qed.

Lemma before_amp_app tok y :
  all_chars word_or_hyphen tok = true ->
  before "&" (tok +:+ y) = tok +:+ before "&" y.
Proof.
  intros Htok. induction tok as [|c tok IH]; [done|].
  simpl in Htok. apply andb_true_iff in Htok as [Hc Htok].
  change (String c tok +:+ y) with (String c (tok +:+ y)).
  rewrite before_cons.
  - change (String c tok +:+ before "&" y)
      with (String c (tok +:+ before "&" y)). f_equal. by apply IH.
  - rewrite strip_prefix_cons.
    destruct (Ascii.eqb_spec "&" c) as [<-|]; [by vm_compute in Hc | done].
Qed.

(** X2: for a url the validator accepts, the directory of the download is
    [./downloads/] followed by the token of the url, a non-empty run of
    word characters and hyphens, or by that token and a newline when the
    url ends with the token and a newline: the name holds no path
    separator and no dot. *)
Theorem output_directory_is_flat (url : string) :
  is_valid_youtube_url url = true ->
  exists tok,
    video_token tok /\
    (out_dir_of url = Ok ("./downloads/" +:+ tok) \/
     out_dir_of url = Ok ("./downloads/" +:+ tok +:+ LF)).
Proof.
  intros (sch & www & tok & y & Hs & Hw & Htok & Hy & ->)%valid_url_parts.
  exists tok. split; [done|].
  destruct (out_dir_of_valid
              (sch +:+ www +:+ "youtube.com/watch?v=" +:+ tok +:+ y))
    as (video_id & Hid & ->).
  { apply is_valid_youtube_url_iff.
    destruct Hy as [->|[->|(q & [->| ->] & Hq)]].
    - left. exists sch, www, tok, "". repeat split; try done;
        try apply Htok. by left.
    - right. exists (sch +:+ www +:+ "youtube.com/watch?v=" +:+ tok).
      split; [by rewrite !str_app_assoc|].
      exists sch, www, tok, "". rewrite str_app_nil_r.
      repeat split; try done; try apply Htok. by left.
    - left. exists sch, www, tok, (String "&" q).
      repeat split; try done; try apply Htok. right. eauto.
    - right.
      exists (sch +:+ www +:+ "youtube.com/watch?v=" +:+ tok +:+ String "&" q).
      split; [by rewrite !str_app_assoc|].
      exists sch, www, tok, (String "&" q).
      repeat split; try done; try apply Htok. right. eauto. }
  unfold spec_video_id, after_first in Hid.
  rewrite partition_watch_prefix in Hid by done. injection Hid as <-.
  rewrite before_amp_app by apply Htok.
  destruct Hy as [->|[->|(q & [->| ->] & Hq)]].
  - left. by rewrite str_app_nil_r.
  - by right.
  - left. change (before "&" (String "&" q)) with "".
    by rewrite str_app_nil_r.
  - left. change (before "&" (String "&" q +:+ LF)) with "".
    by rewrite str_app_nil_r.
Qed.

Lemma output_directory_is_flat_witness :
  exists tok,
    video_token tok /\
    (out_dir_of sample_url = Ok ("./downloads/" +:+ tok) \/
     out_dir_of sample_url = Ok ("./downloads/" +:+ tok +:+ LF)).
Proof. apply output_directory_is_flat. reflexivity. Defined.

End more_strings.

(** ** Further properties: the handlers on any request *)

Ltac case_results :=
  repeat (effects; try done;
          match goal with
          | |- context [match ?x with Ok _ => _ | Raise _ => _ end] =>
              destruct x
          end).

Section any_request.
Variable W : World.

Lemma get_video_info_no_fs url po_token visitor_data :
  fs_events (trace (get_video_info W url po_token visitor_data)) = [].
Proof. unfold get_video_info. case_results. Qed.

Lemma get_video_info_outcome url po_token visitor_data :
  outcome (get_video_info W url po_token visitor_data) =
    match outcome (get_yt_object W url po_token visitor_data) with
    | Raise e => Ok (None, Some (exn_str e))
    | Ok yt =>
        match YouTube.streams yt, YouTube.title yt, YouTube.author yt,
              YouTube.length yt, YouTube.views yt, YouTube.description yt,
              YouTube.publish_date yt with
        | Ok _, Ok title, Ok author, Ok length, Ok views, Ok description,
          Ok publish_date =>
            Ok (Some [("title", title); ("author", author); ("length", length);
                      ("views", views); ("description", description);
                      ("publish_date", publish_date)], None)
        | Raise e, _, _, _, _, _, _
        | Ok _, Raise e, _, _, _, _, _
        | Ok _, Ok _, Raise e, _, _, _, _
        | Ok _, Ok _, Ok _, Raise e, _, _, _
        | Ok _, Ok _, Ok _, Ok _, Raise e, _, _
        | Ok _, Ok _, Ok _, Ok _, Ok _, Raise e, _
        | Ok _, Ok _, Ok _, Ok _, Ok _, Ok _, Raise e =>
            Ok (None, Some (exn_str e))
        end
    end.
Proof.
  unfold get_video_info. effects.
  destruct (outcome (get_yt_object _ _ _ _)) as [yt|e]; [|done]. effects.
  destruct (YouTube.streams yt); [|done]. effects.
  destruct (YouTube.title yt); [|done]. effects.
  destruct (YouTube.author yt); [|done]. effects.
  destruct (YouTube.length yt); [|done]. effects.
  destruct (YouTube.views yt); [|done]. effects.
  destruct (YouTube.description yt); [|done]. effects.
  by destruct (YouTube.publish_date yt).
Qed.

Lemma with_valid_url_cases data (k : string -> pyval -> pyval -> M response) :
  let url := dict_get data "url" in
  (truthy url = false /\
   with_valid_url data k =
     ret (Response (error_body missing_url_message) 400)) \/
  (exists u, url = PStr u /\ is_valid_youtube_url u = false /\
     with_valid_url data k =
       ret (Response (error_body invalid_url_message) 400)) \/
  (exists u, url = PStr u /\ is_valid_youtube_url u = true /\
     with_valid_url data k =
       k u (dict_get data "po_token") (dict_get data "visitor_data")) \/
  (truthy url = true /\ (forall u, url <> PStr u) /\
   with_valid_url data k = raise TypeError).
Proof.
  intros url. subst url. unfold with_valid_url.
  destruct (truthy (dict_get data "url")) eqn:Ht; [|by left]. right.
  destruct (dict_get data "url") as [| | |u| | |]; simpl;
    try (right; right; by repeat split).
  destruct (is_valid_youtube_url u) eqn:Hv.
  - right. left. by exists u.
  - left. by exists u.
Qed.

(** X6: the resolver and the two reading endpoints touch no file, whatever
    the request and whatever the library answers. *)
Theorem reading_endpoints_write_nothing (data : gmap string pyval)
    (url : string) (po_token visitor_data : pyval) :
  fs_events (trace (get_yt_object W url po_token visitor_data)) = [] /\
  fs_events (trace (video_info W data)) = [] /\
  fs_events (trace (available_resolutions W data)) = [].
Proof.
  split; [apply get_yt_object_no_fs|]. split.
  - unfold video_info.
    match goal with
    | |- context [with_valid_url data ?k] =>
        destruct (with_valid_url_cases data k)
          as [[_ ->]|[(u & _ & _ & ->)|[(u & _ & _ & ->)|(_ & _ & ->)]]]
    end; try done.
    rewrite trace_bind, fs_events_app, get_video_info_no_fs.
    destruct (outcome (get_video_info _ _ _ _)) as [[[[|]|] msg]|e]; done.
  - unfold available_resolutions.
    match goal with
    | |- context [with_valid_url data ?k] =>
        destruct (with_valid_url_cases data k)
          as [[_ ->]|[(u & _ & _ & ->)|[(u & _ & _ & ->)|(_ & _ & ->)]]]
    end; try done.
    case_results.
Qed.

(** X4: a url that is truthy and no string makes the validator raise
    [TypeError]; the exception leaves each handler before anything is
    called. *)
Theorem non_string_url_raises (resolution : string)
    (data : gmap string pyval) :
  truthy (dict_get data "url") = true ->
  (forall u, dict_get data "url" <> PStr u) ->
  forall h, h ∈ served W resolution data -> h = ([], Raise TypeError).
Proof.
  intros Ht Hns h Hh.
  assert (Hk : forall k, with_valid_url data k = raise TypeError).
  { intros k.
    destruct (with_valid_url_cases data k)
      as [[Hf _]|[(u & Hu & _)|[(u & Hu & _)|(_ & _ & ->)]]];
      [congruence | by destruct (Hns u) | by destruct (Hns u) | done]. }
  unfold served in Hh.
  repeat (apply elem_of_cons in Hh as [->|Hh]);
    [| | |by apply not_elem_of_nil in Hh];
    unfold download_by_resolution, video_info, available_resolutions;
    by rewrite Hk.
Qed.

(** X5: the handlers read the keys url, po_token and visitor_data of the
    body and nothing else; a key that is absent and a key set to null are
    the same to them. *)
Theorem handlers_read_three_keys (resolution : string)
    (data1 data2 : gmap string pyval) :
  dict_get data1 "url" = dict_get data2 "url" ->
  dict_get data1 "po_token" = dict_get data2 "po_token" ->
  dict_get data1 "visitor_data" = dict_get data2 "visitor_data" ->
  served W resolution data1 = served W resolution data2.
Proof.
  intros Hu Hp Hv.
  unfold served, download_by_resolution, video_info, available_resolutions,
    with_valid_url.
  by rewrite Hu, Hp, Hv.
Qed.

End any_request.

Lemma non_string_url_raises_witness :
  video_info sample_world numeric_request = ([], Raise TypeError).
Proof.
  apply (non_string_url_raises sample_world "720p" numeric_request eq_refl).
  - intros u. discriminate.
  - apply list_elem_of_further, list_elem_of_here.
Defined.

Lemma handlers_read_three_keys_witness :
  served sample_world "720p" noisy_request =
  served sample_world "720p" sample_request.
Proof. by apply handlers_read_three_keys. Defined.

(** ** Further properties: the resolver *)

Section more_resolver.
Variable W : World.

(** X14: with both credentials supplied, a client object whose context
    lacks the entry [client], or the entry [serviceIntegrityDimensions],
    makes the assignment raise [KeyError] on that key; the resolver raises
    it and constructs no session. *)
Theorem bypass_missing_context_key (url : string)
    (po_token visitor_data : pyval) (it : InnerTube) :
  truthy po_token = true -> truthy visitor_data = true ->
  lib_InnerTube W "WEB" true = Ok it ->
  let r := get_yt_object W url po_token visitor_data in
  (context it !! "client" = None ->
   outcome r = Raise (KeyError "client") /\ constructions (trace r) = []) /\
  (is_Some (context it !! "client") ->
   context it !! "serviceIntegrityDimensions" = None ->
   outcome r = Raise (KeyError "serviceIntegrityDimensions") /\
   constructions (trace r) = []).
Proof.
  intros Hp Hv Hit r. subst r. unfold get_yt_object, set_context.
  rewrite Hp, Hv, Hit. simpl. split.
  - intros ->. by simpl.
  - intros [d ->] Hs. simpl. rewrite lookup_insert_ne by done.
    rewrite Hs. by simpl.
Qed.

(** X15: when the fallback succeeds the construction of the default-client
    session is the last thing the resolver does: that session is returned
    without being probed. *)
Theorem fallback_session_not_probed (url : string)
    (po_token visitor_data : pyval) (e : exn) (yt : YouTube.t) :
  truthy po_token && truthy visitor_data = false ->
  web_attempt W url = Raise e -> is_bot_error e = true ->
  lib_YouTube W url ClientDefault = Ok yt ->
  let r := get_yt_object W url po_token visitor_data in
  outcome r = Ok yt /\ last (trace r) = Some (EYouTube url ClientDefault).
Proof.
  intros H Hw Hb Hd r. subst r. unfold get_yt_object, web_attempt in *.
  rewrite H.
  destruct (lib_YouTube W url (ClientNamed "WEB")) as [yt0|e0]; simpl.
  - destruct (YouTube.title yt0) as [v|e1]; [done|]. injection Hw as ->.
    simpl. rewrite Hb. simpl. by rewrite Hd.
  - injection Hw as ->. rewrite Hb. simpl. by rewrite Hd.
Qed.

End more_resolver.

Lemma bypass_missing_context_key_witness :
  outcome (get_yt_object bare_world sample_url (PStr "token") (PStr "visitor"))
  = Raise (KeyError "client").
Proof.
  destruct (bypass_missing_context_key bare_world sample_url (PStr "token")
              (PStr "visitor") _ eq_refl eq_refl eq_refl) as [H _].
  exact (proj1 (H eq_refl)).
Defined.

Lemma fallback_session_not_probed_witness :
  last (trace (get_yt_object bot_world sample_url PNone PNone)) =
    Some (EYouTube sample_url ClientDefault).
Proof.
  exact (proj2 (fallback_session_not_probed bot_world sample_url PNone PNone
                  _ _ eq_refl eq_refl eq_refl eq_refl)).
Defined.

(** ** Further properties: download and video information *)

Section more_download.
Variable W : World.

(** X17: [download_video] and [get_video_info] let no [Exception] of the
    library or of [os.makedirs] through: every such failure comes back as a
    message, beside [False] or [None], and a success carries no message. *)
Theorem helpers_catch_every_exception (url resolution : string)
    (po_token visitor_data : pyval) :
  (outcome (download_video W url resolution po_token visitor_data)
     = Ok (true, None) \/
   exists msg,
     outcome (download_video W url resolution po_token visitor_data)
       = Ok (false, Some msg)) /\
  ((exists title author length views description publish_date,
     outcome (get_video_info W url po_token visitor_data) =
       Ok (Some [("title", title); ("author", author); ("length", length);
                 ("views", views); ("description", description);
                 ("publish_date", publish_date)], None)) \/
   exists msg,
     outcome (get_video_info W url po_token visitor_data)
       = Ok (None, Some msg)).
Proof.
  split.
  - rewrite download_video_outcome.
    repeat match goal with
           | |- context [match ?x with _ => _ end] => destruct x
           end; eauto.
  - rewrite get_video_info_outcome.
    repeat match goal with
           | |- context [match ?x with _ => _ end] => destruct x
           end; eauto 10.
Qed.

(** X16: on a url without [v=] the index [[1]] is out of range: when a
    stream was found, [download_video] answers [False] with the message of
    the [IndexError] and touches no file. *)
Theorem download_video_without_id (url resolution : string)
    (po_token visitor_data : pyval) (yt : YouTube.t) (ss : list Stream.t)
    (stream : Stream.t) :
  PyStr.after_first "v=" url = None ->
  outcome (get_yt_object W url po_token visitor_data) = Ok yt ->
  YouTube.streams yt = Ok ss ->
  head (stream_filter (Some true) (Some "mp4") (Some resolution) ss)
    = Some stream ->
  outcome (download_video W url resolution po_token visitor_data) =
    Ok (false, Some "list index out of range") /\
  fs_events (trace (download_video W url resolution po_token visitor_data))
    = [].
Proof.
  intros Ha Hyt Hs Hh.
  rewrite download_video_outcome, download_video_fs, Hyt, Hs, Hh.
  rewrite out_dir_of_eq, Ha. done.
Qed.

End more_download.

Lemma download_video_without_id_witness :
  outcome (download_video sample_world "not-a-url" "720p" PNone PNone) =
    Ok (false, Some "list index out of range").
Proof.
  exact (proj1 (download_video_without_id sample_world "not-a-url" "720p"
                  PNone PNone sample_session sample_streams _
                  eq_refl eq_refl eq_refl eq_refl)).
Defined.

(** ** Further properties: the handlers on a valid request *)

Section more_valid_request.
Variable W : World.
Variables (data : gmap string pyval) (url : string).
Hypothesis Hurl : dict_get data "url" = PStr url.
Hypothesis Hvalid : is_valid_youtube_url url = true.

Let po_token := dict_get data "po_token".
Let visitor_data := dict_get data "visitor_data".

Lemma available_resolutions_outcome :
  outcome (available_resolutions W data) =
    match outcome (get_yt_object W url po_token visitor_data) with
    | Raise e => Ok (Response (error_body (exn_str e)) 500)
    | Ok yt =>
        match YouTube.streams yt with
        | Raise e => Ok (Response (error_body (exn_str e)) 500)
        | Ok ss =>
            Ok (Response
                  (PDict
                     [("progressive",
                       str_list (sorted (list_set (resolution_labels
                         (stream_filter (Some true) (Some "mp4") None ss)))));
                      ("all",
                       str_list (sorted (list_set (resolution_labels
                         (stream_filter None (Some "mp4") None ss)))))])
                  200)
        end
    end.
Proof.
  unfold available_resolutions.
  rewrite (with_valid_url_valid _ _ _ Hurl Hvalid). fold po_token visitor_data.
  effects. destruct (outcome (get_yt_object _ _ _ _)) as [yt|e]; [|done].
  effects. destruct (YouTube.streams yt) as [ss|e]; [|done]. by effects.
Qed.

(** X7: the download handler answers 200 exactly when the session is
    resolved, its listing holds a progressive mp4 stream at the resolution,
    the directory is created and the download of the first such stream
    returns; the files it touched are then that directory and that
    download. *)
Theorem download_succeeds_iff (resolution : string) :
  let r := download_by_resolution W resolution data in
  (exists b, outcome r = Ok (Response b 200)) <->
  exists yt ss stream out_dir path,
    outcome (get_yt_object W url po_token visitor_data) = Ok yt /\
    YouTube.streams yt = Ok ss /\
    head (stream_filter (Some true) (Some "mp4") (Some resolution) ss)
      = Some stream /\
    out_dir_of url = Ok out_dir /\
    os_makedirs W out_dir = Ok tt /\
    Stream.download stream out_dir = Ok path /\
    fs_events (trace r) = [EMakedirs out_dir true; EDownload stream out_dir].
Proof.
  intros r. subst r.
  rewrite (download_by_resolution_outcome W data url Hurl Hvalid),
    (download_by_resolution_fs W data url Hurl Hvalid).
  fold po_token visitor_data.
  rewrite download_video_outcome, download_video_fs. split.
  - intros [b Hb].
    destruct (outcome (get_yt_object _ _ _ _)) as [yt|e]; [|done].
    destruct (YouTube.streams yt) as [ss|e] eqn:Hs; [|done].
    destruct (head _) as [stream|] eqn:Hh; [|done].
    destruct (out_dir_of url) as [out_dir|e]; [|done].
    destruct (os_makedirs W out_dir) as [[]|e] eqn:Hm; [|done].
    destruct (Stream.download stream out_dir) as [path|e] eqn:Hd; [|done].
    by exists yt, ss, stream, out_dir, path.
  - intros (yt & ss & stream & out_dir & path & -> & -> & -> & -> & -> & -> & _).
    eauto.
Qed.

(** X8: when [os.makedirs] raises, the handler answers 500 with the message
    of that error and attempts no download; when the download raises, it
    answers 500 with the message of that error, the directory having been
    created. *)
Theorem download_failures_reported (resolution : string)
    (yt : YouTube.t) (ss : list Stream.t) (stream : Stream.t)
    (out_dir : string) :
  outcome (get_yt_object W url po_token visitor_data) = Ok yt ->
  YouTube.streams yt = Ok ss ->
  head (stream_filter (Some true) (Some "mp4") (Some resolution) ss)
    = Some stream ->
  out_dir_of url = Ok out_dir ->
  let r := download_by_resolution W resolution data in
  (forall e, os_makedirs W out_dir = Raise e ->
     outcome r = Ok (Response (error_body (exn_str e)) 500) /\
     fs_events (trace r) = [EMakedirs out_dir true]) /\
  (forall e, os_makedirs W out_dir = Ok tt ->
     Stream.download stream out_dir = Raise e ->
     outcome r = Ok (Response (error_body (exn_str e)) 500) /\
     fs_events (trace r) = [EMakedirs out_dir true; EDownload stream out_dir]).
Proof.
  intros Hyt Hs Hh Hd r. subst r.
  rewrite (download_by_resolution_outcome W data url Hurl Hvalid),
    (download_by_resolution_fs W data url Hurl Hvalid).
  fold po_token visitor_data.
  rewrite download_video_outcome, download_video_fs, Hyt, Hs, Hh, Hd.
  split.
  - by intros e ->.
  - by intros e -> ->.
Qed.

(** X9: for a resolved session the video information handler answers 200
    exactly when the stream listing and the six accessors all return. *)
Theorem video_info_succeeds_iff (yt : YouTube.t) :
  outcome (get_yt_object W url po_token visitor_data) = Ok yt ->
  (exists b, outcome (video_info W data) = Ok (Response b 200)) <->
  (exists ss title author length views description publish_date,
     YouTube.streams yt = Ok ss /\
     YouTube.title yt = Ok title /\ YouTube.author yt = Ok author /\
     YouTube.length yt = Ok length /\ YouTube.views yt = Ok views /\
     YouTube.description yt = Ok description /\
     YouTube.publish_date yt = Ok publish_date).
Proof.
  intros Hyt. rewrite (video_info_outcome W data url Hurl Hvalid).
  fold po_token visitor_data. rewrite get_video_info_outcome, Hyt. split.
  - intros [b Hb].
    destruct (YouTube.streams yt) as [ss|]; [|done].
    destruct (YouTube.title yt) as [t|]; [|done].
    destruct (YouTube.author yt) as [a|]; [|done].
    destruct (YouTube.length yt) as [l|]; [|done].
    destruct (YouTube.views yt) as [v|]; [|done].
    destruct (YouTube.description yt) as [d|]; [|done].
    destruct (YouTube.publish_date yt) as [p|]; [|done].
    by exists ss, t, a, l, v, d, p.
  - intros (ss & t & a & l & v & d & p & -> & -> & -> & -> & -> & -> & ->).
    eauto.
Qed.

Lemma label_of_progressive_all (ss : list Stream.t) (x : string) :
  label_of true ss x -> label_of false ss x.
Proof.
  intros (s & Hin & _ & Hext & Hr & Hne). exists s. by repeat split.
Qed.

(** X10: every resolution the handler lists under [progressive] it also
    lists under [all]. *)
Theorem progressive_among_all (yt : YouTube.t) (ss : list Stream.t) :
  outcome (get_yt_object W url po_token visitor_data) = Ok yt ->
  YouTube.streams yt = Ok ss ->
  exists progressive all,
    outcome (available_resolutions W data) =
      Ok (Response (PDict [("progressive", str_list progressive);
                           ("all", str_list all)]) 200) /\
    progressive ⊆ all.
Proof.
  intros Hyt Hs. rewrite available_resolutions_outcome, Hyt, Hs.
  eexists _, _. split; [reflexivity|].
  intros x Hx.
  apply (sorted_list_set (label_of true ss)) in Hx;
    [|intros y; apply (elem_of_labels (Some true))].
  apply (sorted_list_set (label_of false ss));
    [intros y; apply (elem_of_labels None)|].
  by apply label_of_progressive_all.
Qed.

Lemma head_filter_resolution (ss : list Stream.t) (resolution : string) :
  resolution <> "" ->
  is_Some (head (stream_filter (Some true) (Some "mp4") (Some resolution) ss))
  <-> label_of true ss resolution.
Proof.
  intros Hne. unfold stream_filter, label_of. split.
  - intros [s Hh]. apply head_Some_elem_of in Hh.
    apply list_elem_of_In, List.filter_In in Hh as [Hin Hf].
    apply andb_true_iff in Hf as [[Hp He]%andb_true_iff Hr].
    exists s. split; [by apply list_elem_of_In|]. split; [done|].
    split; [by apply String.eqb_eq|]. split; [|done].
    destruct (Stream.resolution s) as [r'|]; [|done].
    by apply String.eqb_eq in Hr as ->.
  - intros (s & Hin & Hp & He & Hr & _).
    assert (Hf : s ∈ List.filter (fun s =>
      Stream.is_progressive s && String.eqb (Stream.subtype s) "mp4"
      && match Stream.resolution s with
         | Some r' => String.eqb r' resolution
         | None => false
         end) ss).
    { apply list_elem_of_In, List.filter_In. split; [by apply list_elem_of_In|].
      rewrite Hp, Hr by done. rewrite String.eqb_refl, andb_true_r.
      by apply String.eqb_eq. }
    destruct (List.filter _ ss) as [|s0 l] eqn:Hl; [by apply not_elem_of_nil in Hf|].
    by exists s0.
Qed.

(** X11: for a resolved session whose streams are listed, a resolution is
    listed under [progressive] exactly when the download handler, asked for
    it, finds a stream and creates the directory of the download. *)
Theorem listed_iff_downloadable (resolution : string)
    (yt : YouTube.t) (ss : list Stream.t) :
  resolution <> "" ->
  outcome (get_yt_object W url po_token visitor_data) = Ok yt ->
  YouTube.streams yt = Ok ss ->
  exists progressive all,
    outcome (available_resolutions W data) =
      Ok (Response (PDict [("progressive", str_list progressive);
                           ("all", str_list all)]) 200) /\
    (resolution ∈ progressive <->
     fs_events (trace (download_by_resolution W resolution data)) <> []).
Proof.
  intros Hne Hyt Hs. rewrite available_resolutions_outcome, Hyt, Hs.
  eexists _, _. split; [reflexivity|].
  rewrite (download_by_resolution_fs W data url Hurl Hvalid). fold po_token visitor_data.
  rewrite download_video_fs, Hyt, Hs.
  destruct (out_dir_of_valid url Hvalid) as (video_id & _ & ->).
  etransitivity.
  { apply (sorted_list_set (label_of true ss)).
    intros y. apply (elem_of_labels (Some true)). }
  rewrite <- (head_filter_resolution ss resolution Hne).
  destruct (head _) as [stream|]; split; try done;
    first [by intros [? ?] | intros _; by eexists].
Qed.

(** X3: on a request whose url passes validation no [Exception] raised by
    the library or by [os.makedirs] leaves a handler, the metadata being
    values [jsonify] serialises: each handler returns a response whose
    status is 200, or is 500 with a body that is an object with the one
    key [error] and a message. *)
Theorem valid_request_answered (resolution : string) :
  forall h, h ∈ served W resolution data ->
  exists resp,
    outcome h = Ok resp /\
    (status resp = 200%Z \/
     (status resp = 500%Z /\ exists msg, body resp = error_body msg)).
Proof.
  intros h Hh. unfold served in Hh.
  repeat (apply elem_of_cons in Hh as [->|Hh]);
    [| | |by apply not_elem_of_nil in Hh].
  - rewrite (download_by_resolution_outcome W data url Hurl Hvalid).
    fold po_token visitor_data. rewrite download_video_outcome.
    destruct (outcome (get_yt_object _ _ _ _)) as [yt|e];
      [destruct (YouTube.streams yt) as [ss|e];
       [destruct (head _) as [stream|];
        [destruct (out_dir_of url) as [out_dir|e];
         [destruct (os_makedirs W out_dir) as [u|e];
          [destruct (Stream.download stream out_dir) as [p|e]|]|]|]|]|];
      eexists; (split; [reflexivity|]);
      first [by left | right; split; [done | by eexists]].
  - rewrite (video_info_outcome W data url Hurl Hvalid).
    fold po_token visitor_data. rewrite get_video_info_outcome.
    destruct (outcome (get_yt_object _ _ _ _)) as [yt|e];
      [destruct (YouTube.streams yt) as [ss|e];
       [destruct (YouTube.title yt) as [t|e];
        [destruct (YouTube.author yt) as [a|e];
         [destruct (YouTube.length yt) as [l|e];
          [destruct (YouTube.views yt) as [v|e];
           [destruct (YouTube.description yt) as [d|e];
            [destruct (YouTube.publish_date yt) as [p|e]|]|]|]|]|]|]|];
      eexists; (split; [reflexivity|]);
      first [by left | right; split; [done | by eexists]].
  - rewrite available_resolutions_outcome.
    destruct (outcome (get_yt_object _ _ _ _)) as [yt|e];
      [destruct (YouTube.streams yt) as [ss|e]|];
      eexists; (split; [reflexivity|]);
      [by left | right; split; [done | by eexists] ..].
Qed.

End more_valid_request.

Lemma valid_request_answered_witness :
  exists resp,
    outcome (video_info sample_world sample_request) = Ok resp /\
    (status resp = 200%Z \/
     (status resp = 500%Z /\ exists msg, body resp = error_body msg)).
Proof.
  apply (valid_request_answered sample_world sample_request sample_url
           eq_refl eq_refl "720p").
  apply list_elem_of_further, list_elem_of_here.
Defined.

Lemma download_succeeds_iff_witness :
  exists b,
    outcome (download_by_resolution sample_world "720p" sample_request) =
      Ok (Response b 200).
Proof.
  apply (download_succeeds_iff sample_world sample_request sample_url
           eq_refl eq_refl "720p").
  exists sample_session, sample_streams, (sample_stream (Some "720p") true),
    "./downloads/abc123", "./downloads/abc123/video.mp4".
  repeat split; reflexivity.
Defined.

Lemma download_failures_reported_witness :
  outcome (download_by_resolution readonly_world "720p" sample_request) =
    Ok (Response (error_body "Permission denied") 500) /\
  fs_events (trace (download_by_resolution readonly_world "720p" sample_request))
    = [EMakedirs "./downloads/abc123" true].
Proof.
  destruct (download_failures_reported readonly_world sample_request sample_url
              eq_refl eq_refl "720p" sample_session sample_streams
              (sample_stream (Some "720p") true) "./downloads/abc123"
              eq_refl eq_refl eq_refl eq_refl) as [H _].
  exact (H _ eq_refl).
Defined.

Lemma video_info_succeeds_iff_witness :
  exists b, outcome (video_info sample_world sample_request) = Ok (Response b 200).
Proof.
  apply (video_info_succeeds_iff sample_world sample_request sample_url
           eq_refl eq_refl sample_session eq_refl).
  exists sample_streams, (PStr "T"), (PStr "A"), (PInt 120), (PInt 5),
    (PStr "D"), (PDatetime 1700000000).
  repeat split; reflexivity.
Defined.

Lemma progressive_among_all_witness :
  exists progressive all,
    outcome (available_resolutions sample_world sample_request) =
      Ok (Response (PDict [("progressive", str_list progressive);
                           ("all", str_list all)]) 200) /\
    progressive ⊆ all.
Proof.
  exact (progressive_among_all sample_world sample_request sample_url
           eq_refl eq_refl sample_session sample_streams eq_refl eq_refl).
Defined.

Lemma listed_iff_downloadable_witness :
  exists progressive all,
    outcome (available_resolutions sample_world sample_request) =
      Ok (Response (PDict [("progressive", str_list progressive);
                           ("all", str_list all)]) 200) /\
    ("720p" ∈ progressive <->
     fs_events (trace (download_by_resolution sample_world "720p" sample_request))
       <> []).
Proof.
  apply (listed_iff_downloadable sample_world sample_request sample_url
           eq_refl eq_refl "720p" sample_session sample_streams);
    [discriminate | reflexivity | reflexivity].
Defined.

(** ** Further properties: sessions constructed per request *)

Lemma constructions_app (t1 t2 : list event) :
  constructions (t1 ++ t2) = constructions t1 ++ constructions t2.
Proof. apply omap_app. Qed.

Lemma constructions_for_each_print {A : Type} (l : list A) (g : A -> string) :
  constructions (trace (for_each l (fun x => print (g x)))) = [].
Proof.
  rewrite for_each_print. simpl. induction l as [|x l IH]; [done | exact IH].
Qed.

Lemma constructions_nil : constructions [] = [].
Proof. done. Qed.

Lemma constructions_cons (ev : event) (t : list event) :
  constructions (ev :: t) =
    match ev with
    | EYouTube _ c => c :: constructions t
    | _ => constructions t
    end.
Proof. by destruct ev. Qed.

Ltac sessions :=
  repeat first
    [ rewrite outcome_bind | rewrite outcome_try
    | rewrite outcome_for_each_print
    | rewrite trace_bind | rewrite trace_try
    | rewrite constructions_app
    | rewrite constructions_for_each_print
    | rewrite constructions_nil | rewrite constructions_cons
    | rewrite app_nil_r
    | progress cbn [outcome trace fst snd call print lift ret raise app] ].

Section sessions_per_request.
Variable W : World.
Variables (data : gmap string pyval) (url : string).
Hypothesis Hurl : dict_get data "url" = PStr url.
Hypothesis Hvalid : is_valid_youtube_url url = true.

(** X18: on a valid request each handler constructs sessions through the
    resolver only, which it calls once: the sessions constructed are those
    of that one call. *)
Theorem one_resolution_per_request (resolution : string) :
  forall h, h ∈ served W resolution data ->
  constructions (trace h) =
  constructions (trace (get_yt_object W url (dict_get data "po_token")
                          (dict_get data "visitor_data"))).
Proof.
  intros h Hh. unfold served in Hh.
  repeat (apply elem_of_cons in Hh as [->|Hh]);
    [| | |by apply not_elem_of_nil in Hh].
  - unfold download_by_resolution.
    rewrite (with_valid_url_valid _ _ _ Hurl Hvalid).
    unfold download_video. sessions.
    destruct (outcome (get_yt_object _ _ _ _)) as [yt|e]; sessions;
      [|done].
    destruct (YouTube.streams yt) as [ss|e]; sessions; [|done].
    destruct (head _) as [stream|]; sessions; [|done].
    destruct (out_dir_of url) as [out_dir|e]; sessions; [|done].
    destruct (os_makedirs W out_dir) as [u|e]; sessions; [|done].
    by destruct (Stream.download stream out_dir); sessions.
  - unfold video_info.
    rewrite (with_valid_url_valid _ _ _ Hurl Hvalid).
    unfold get_video_info. sessions.
    destruct (outcome (get_yt_object _ _ _ _)) as [yt|e]; sessions;
      [|done].
    destruct (YouTube.streams yt); sessions; [|done].
    destruct (YouTube.title yt); sessions; [|done].
    destruct (YouTube.author yt); sessions; [|done].
    destruct (YouTube.length yt); sessions; [|done].
    destruct (YouTube.views yt); sessions; [|done].
    destruct (YouTube.description yt); sessions; [|done].
    by destruct (YouTube.publish_date yt); sessions.
  - unfold available_resolutions.
    rewrite (with_valid_url_valid _ _ _ Hurl Hvalid). sessions.
    destruct (outcome (get_yt_object _ _ _ _)) as [yt|e]; sessions;
      [|done].
    by destruct (YouTube.streams yt); sessions.
Qed.

End sessions_per_request.

Lemma one_resolution_per_request_witness :
  constructions (trace (download_by_resolution sample_world "720p" sample_request))
  = [ClientNamed "WEB"].
Proof.
  apply (one_resolution_per_request sample_world sample_request sample_url
           eq_refl eq_refl "720p").
  apply list_elem_of_here.
Defined.
